(** * Circular buffer for sensor data: a model of [circular_buffer.c]

    The C translation unit is embedded function by function.  Unsigned
    32-bit fields are integers of [Z] with the wrap-around of every
    arithmetic operation written out ([u32]).  A pointer that may be
    [NULL] is an [option]: [None] is [NULL], [Some x] points to an object
    whose current content is [x]; a function that mutates through the
    pointer returns the new content.  The heap block behind [pBuffer] is a
    list of slots.  Indexing it outside its bounds, or through [NULL], is
    undefined behaviour in C and is the outcome [Undef] here.

    The build that is modelled is the default one: [USE_STATIC_ALLOCATION]
    is not defined, so storage comes from [malloc] and goes back with
    [free].  The compile-time choice [BUFFER_FULL_POLICY] and the choice
    of platform behind [ENTER_CRITICAL] are parameters of the functions
    they influence.  Diagnostic [printf] calls carry no state and are
    left out, except for the data values listed by [cb_printContents]. *)

From Stdlib Require Import ZArith Lia Bool List.
From stdpp Require Import base tactics option list.

Local Open Scope Z_scope.

(** ** Machine integers *)

Definition U32_MOD : Z := 2 ^ 32.

(** Reduction of an arithmetic result to [uint32_t]. *)
Definition u32 (x : Z) : Z := x mod U32_MOD.

(** A value that a [uint32_t] object can hold. *)
Definition is_u32 (x : Z) : Prop := 0 <= x < U32_MOD.

(** ** Outcome of code that may touch memory *)

Inductive exec (A : Type) : Type :=
| Done (a : A)
| Undef.
Arguments Done {A} a.
Arguments Undef {A}.

#[global] Instance exec_ret : MRet exec := fun _ a => Done a.

#[global] Instance exec_bind : MBind exec := fun _ _ k m =>
  match m with
  | Done a => k a
  | Undef => Undef
  end.

(** ** Configuration macros *)

Inductive FullPolicy : Type :=
| POLICY_OVERWRITE_OLDEST
| POLICY_REJECT_NEW.

Definition CB_SUCCESS : Z := 0.
Definition CB_ERROR_EMPTY : Z := -1.
Definition CB_ERROR_FULL : Z := -2.
Definition CB_ERROR_INVALID_SIZE : Z := -3.
Definition CB_ERROR_NULL_POINTER : Z := -4.

(** ** Data types *)

(** [SensorData_t] is [int32_t]; the buffer only copies such values. *)
Definition SensorData_t : Type := Z.

Definition sizeof_SensorData_t : Z := 4.

Record CircularBuffer_t : Type := mkCB {
  pBuffer : option (list SensorData_t);
  writeIndex : Z;
  readIndex : Z;
  count : Z;
  capacity : Z;
  indexMask : Z;
  isInitialized : bool
}.

Definition set_pBuffer (p : option (list SensorData_t)) (b : CircularBuffer_t) :=
  mkCB p (writeIndex b) (readIndex b) (count b) (capacity b) (indexMask b)
       (isInitialized b).
Definition set_writeIndex (x : Z) (b : CircularBuffer_t) :=
  mkCB (pBuffer b) x (readIndex b) (count b) (capacity b) (indexMask b)
       (isInitialized b).
Definition set_readIndex (x : Z) (b : CircularBuffer_t) :=
  mkCB (pBuffer b) (writeIndex b) x (count b) (capacity b) (indexMask b)
       (isInitialized b).
Definition set_count (x : Z) (b : CircularBuffer_t) :=
  mkCB (pBuffer b) (writeIndex b) (readIndex b) x (capacity b) (indexMask b)
       (isInitialized b).
Definition set_capacity (x : Z) (b : CircularBuffer_t) :=
  mkCB (pBuffer b) (writeIndex b) (readIndex b) (count b) x (indexMask b)
       (isInitialized b).
Definition set_indexMask (x : Z) (b : CircularBuffer_t) :=
  mkCB (pBuffer b) (writeIndex b) (readIndex b) (count b) (capacity b) x
       (isInitialized b).
Definition set_isInitialized (x : bool) (b : CircularBuffer_t) :=
  mkCB (pBuffer b) (writeIndex b) (readIndex b) (count b) (capacity b)
       (indexMask b) x.

(** Calls into the allocator, in program order. *)
Inductive heap_event : Type :=
| EvMalloc (bytes : Z)
| EvFree.

(** ** Raw storage access *)

(** [p[i]] as an rvalue. *)
Definition load (p : option (list SensorData_t)) (i : Z) : exec SensorData_t :=
  match p with
  | None => Undef
  | Some l =>
      if Z.ltb i 0 then Undef
      else match l !! Z.to_nat i with
           | Some x => Done x
           | None => Undef
           end
  end.

(** [p[i] = v]. *)
Definition store (p : option (list SensorData_t)) (i : Z) (v : SensorData_t)
  : exec (option (list SensorData_t)) :=
  match p with
  | None => Undef
  | Some l =>
      if Z.ltb i 0 then Undef
      else if Z.ltb i (Z.of_nat (length l))
           then Done (Some (<[Z.to_nat i := v]> l))
           else Undef
  end.

(** ** Helper functions *)

Definition isPowerOfTwo (n : Z) : bool :=
  negb (Z.eqb n 0) && Z.eqb (Z.land n (u32 (n - 1))) 0.

Definition wrapIndex (cb : CircularBuffer_t) (index : Z) : Z :=
  Z.land index (indexMask cb).

(** ** Public API *)

(** [alloc_ok] is the answer of [malloc]: [true] for a fresh block of the
    requested size, [false] for [NULL].  The fresh block is zeroed by the
    [memset] that follows.  The byte count is computed in [size_t], taken
    to be wide enough for [4 * size].  The result lists the allocator
    calls made. *)
Definition cb_init (cb : option CircularBuffer_t) (size : Z) (alloc_ok : bool)
  : Z * option CircularBuffer_t * list heap_event :=
  match cb with
  | None => (CB_ERROR_NULL_POINTER, None, [])
  | Some b =>
      if Z.eqb size 0 || negb (isPowerOfTwo size)
      then (CB_ERROR_INVALID_SIZE, Some b, [])
      else
        let b := set_capacity size b in
        let b := set_indexMask (u32 (size - 1)) b in
        let b := set_writeIndex 0 b in
        let b := set_readIndex 0 b in
        let b := set_count 0 b in
        let ev := [EvMalloc (sizeof_SensorData_t * size)] in
        if alloc_ok then
          let b := set_pBuffer (Some (replicate (Z.to_nat size) 0)) b in
          let b := set_isInitialized true b in
          (CB_SUCCESS, Some b, ev)
        else
          let b := set_pBuffer None b in
          (CB_ERROR_NULL_POINTER, Some b, ev)
  end.

Definition cb_deinit (cb : option CircularBuffer_t)
  : Z * option CircularBuffer_t * list heap_event :=
  match cb with
  | None => (CB_ERROR_NULL_POINTER, None, [])
  | Some b =>
      let '(b, ev) :=
        match pBuffer b with
        | Some _ => (set_pBuffer None b, [EvFree])
        | None => (b, [])
        end in
      let b := set_isInitialized false b in
      let b := set_capacity 0 b in
      let b := set_writeIndex 0 b in
      let b := set_readIndex 0 b in
      let b := set_count 0 b in
      (CB_SUCCESS, Some b, ev)
  end.

Definition cb_isEmpty (cb : option CircularBuffer_t) : bool :=
  match cb with
  | None => true
  | Some b => if negb (isInitialized b) then true else Z.eqb (count b) 0
  end.

Definition cb_isFull (cb : option CircularBuffer_t) : bool :=
  match cb with
  | None => false
  | Some b => if negb (isInitialized b) then false
              else Z.eqb (count b) (capacity b)
  end.

(** [data] is passed by value.  [BUFFER_FULL_POLICY] selects the branch
    that the preprocessor keeps in the full case. *)
Definition cb_push (policy : FullPolicy) (cb : option CircularBuffer_t)
    (data : SensorData_t) : exec (Z * option CircularBuffer_t) :=
  match cb with
  | None => Done (CB_ERROR_NULL_POINTER, None)
  | Some b =>
      if negb (isInitialized b) then Done (CB_ERROR_NULL_POINTER, Some b)
      else
        let after_full_check : Z + CircularBuffer_t :=
          if cb_isFull (Some b) then
            match policy with
            | POLICY_OVERWRITE_OLDEST =>
                inr (set_readIndex (wrapIndex b (u32 (readIndex b + 1))) b)
            | POLICY_REJECT_NEW => inl CB_ERROR_FULL
            end
          else inr (set_count (u32 (count b + 1)) b) in
        match after_full_check with
        | inl code => Done (code, Some b)
        | inr b =>
            p ← store (pBuffer b) (writeIndex b) data;
            let b := set_pBuffer p b in
            let b := set_writeIndex (wrapIndex b (u32 (writeIndex b + 1))) b in
            Done (CB_SUCCESS, Some b)
        end
  end.

(** [pData] is the caller's output location: [None] for a [NULL]
    argument, [Some x] for a location that currently holds [x].  The third
    component of the result is the location after the call. *)
Definition cb_pop (cb : option CircularBuffer_t) (pData : option SensorData_t)
  : exec (Z * option CircularBuffer_t * option SensorData_t) :=
  match cb with
  | None => Done (CB_ERROR_NULL_POINTER, None, pData)
  | Some b =>
      if negb (isInitialized b) then Done (CB_ERROR_NULL_POINTER, Some b, pData)
      else
        match pData with
        | None => Done (CB_ERROR_NULL_POINTER, Some b, None)
        | Some _ =>
            if cb_isEmpty (Some b) then Done (CB_ERROR_EMPTY, Some b, pData)
            else
              x ← load (pBuffer b) (readIndex b);
              let b := set_readIndex (wrapIndex b (u32 (readIndex b + 1))) b in
              let b := set_count (u32 (count b - 1)) b in
              Done (CB_SUCCESS, Some b, Some x)
        end
  end.

Definition cb_getCount (cb : option CircularBuffer_t) : Z :=
  match cb with
  | None => 0
  | Some b => if negb (isInitialized b) then 0 else count b
  end.

Definition cb_getFreeSpace (cb : option CircularBuffer_t) : Z :=
  match cb with
  | None => 0
  | Some b => if negb (isInitialized b) then 0
              else u32 (capacity b - count b)
  end.

Definition cb_clear (cb : option CircularBuffer_t)
  : Z * option CircularBuffer_t :=
  match cb with
  | None => (CB_ERROR_NULL_POINTER, None)
  | Some b =>
      if negb (isInitialized b) then (CB_ERROR_NULL_POINTER, Some b)
      else
        let b := set_writeIndex 0 b in
        let b := set_readIndex 0 b in
        let b := set_count 0 b in
        (CB_SUCCESS, Some b)
  end.

Definition cb_peek (cb : option CircularBuffer_t) (pData : option SensorData_t)
  : exec (Z * option CircularBuffer_t * option SensorData_t) :=
  match cb, pData with
  | None, _ => Done (CB_ERROR_NULL_POINTER, None, pData)
  | Some b, None => Done (CB_ERROR_NULL_POINTER, Some b, None)
  | Some b, Some _ =>
      if negb (isInitialized b) then Done (CB_ERROR_NULL_POINTER, Some b, pData)
      else if cb_isEmpty (Some b) then Done (CB_ERROR_EMPTY, Some b, pData)
      else
        x ← load (pBuffer b) (readIndex b);
        Done (CB_SUCCESS, Some b, Some x)
  end.

(** ** Critical sections *)

(** [ARM_ARCH] is the build with [__ARM_ARCH] defined, where the macros
    are [__disable_irq()] and [__enable_irq()]; in the [GENERIC] build
    they expand to empty statements.  The interrupt-enable flag of the
    processor is the only state the macros touch. *)
Inductive Platform : Type :=
| ARM_ARCH
| GENERIC.

Definition ENTER_CRITICAL (plat : Platform) (irq_enabled : bool) : bool :=
  match plat with
  | ARM_ARCH => false
  | GENERIC => irq_enabled
  end.

Definition EXIT_CRITICAL (plat : Platform) (irq_enabled : bool) : bool :=
  match plat with
  | ARM_ARCH => true
  | GENERIC => irq_enabled
  end.

Definition cb_push_safe (plat : Platform) (policy : FullPolicy)
    (irq_enabled : bool) (cb : option CircularBuffer_t) (data : SensorData_t)
  : exec (Z * option CircularBuffer_t * bool) :=
  let irq := ENTER_CRITICAL plat irq_enabled in
  '(result, cb) ← cb_push policy cb data;
  let irq := EXIT_CRITICAL plat irq in
  Done (result, cb, irq).

Definition cb_pop_safe (plat : Platform) (irq_enabled : bool)
    (cb : option CircularBuffer_t) (pData : option SensorData_t)
  : exec (Z * option CircularBuffer_t * option SensorData_t * bool) :=
  let irq := ENTER_CRITICAL plat irq_enabled in
  '(result, cb, pData) ← cb_pop cb pData;
  let irq := EXIT_CRITICAL plat irq in
  Done (result, cb, pData, irq).

(** ** Debug listing *)

(** The [for] loop of [cb_printContents], [n] iterations from slot [idx];
    the result is the sequence of values handed to [printf]. *)
Fixpoint print_loop (b : CircularBuffer_t) (idx : Z) (n : nat)
  : exec (list SensorData_t) :=
  match n with
  | O => Done []
  | S n' =>
      x ← load (pBuffer b) idx;
      rest ← print_loop b (wrapIndex b (u32 (idx + 1))) n';
      Done (x :: rest)
  end.

Definition cb_printContents (cb : option CircularBuffer_t)
  : exec (list SensorData_t) :=
  match cb with
  | None => Done []
  | Some b =>
      if negb (isInitialized b) then Done []
      else if cb_isEmpty (Some b) then Done []
      else print_loop b (readIndex b) (Z.to_nat (count b))
  end.

(** ** The push of [10_circular_buffer_mini.c] *)

(** The teaching version of the same buffer.  Its structure has the same
    fields, so [CircularBuffer_t] is shared; its policy macro
    [POLICY_OVERWRITE_OLD] is [POLICY_OVERWRITE_OLDEST] here, and every
    other value of the macro takes the [#else] branch. *)
Module Mini.

Definition CB_SUCCESS : Z := 0.
Definition CB_ERROR_FULL : Z := -2.
Definition CB_ERROR_NULL : Z := -4.

Definition wrapIndex (index mask : Z) : Z := Z.land index mask.

Definition cb_isFull (cb : option CircularBuffer_t) : bool :=
  match cb with
  | None => false
  | Some b => if negb (isInitialized b) then false
              else Z.eqb (count b) (capacity b)
  end.

Definition cb_push (policy : FullPolicy) (cb : option CircularBuffer_t)
    (data : SensorData_t) : exec (Z * option CircularBuffer_t) :=
  match cb with
  | None => Done (CB_ERROR_NULL, None)
  | Some b =>
      if negb (isInitialized b) then Done (CB_ERROR_NULL, Some b)
      else
        let after_full_check : Z + CircularBuffer_t :=
          if cb_isFull (Some b) then
            match policy with
            | POLICY_OVERWRITE_OLDEST =>
                inr (set_readIndex
                       (wrapIndex (u32 (readIndex b + 1)) (indexMask b)) b)
            | POLICY_REJECT_NEW => inl CB_ERROR_FULL
            end
          else inr (set_count (u32 (count b + 1)) b) in
        match after_full_check with
        | inl code => Done (code, Some b)
        | inr b =>
            p ← store (pBuffer b) (writeIndex b) data;
            let b := set_pBuffer p b in
            let b :=
              set_writeIndex
                (wrapIndex (u32 (writeIndex b + 1)) (indexMask b)) b in
            Done (CB_SUCCESS, Some b)
        end
  end.

(** The rest of the teaching file.  [calloc] hands out zeroed storage;
    its calls and those of [free] are recorded as for the main file. *)
Inductive heap_event : Type :=
| EvCalloc (nmemb size : Z)
| EvFree.

Definition CB_ERROR_EMPTY : Z := -1.
Definition CB_ERROR_INVALID_SIZE : Z := -3.
Definition CB_ERROR_ALLOC : Z := -5.

Definition isPowerOfTwo (n : Z) : bool :=
  negb (Z.eqb n 0) && Z.eqb (Z.land n (u32 (n - 1))) 0.

Definition cb_init (cb : option CircularBuffer_t) (size : Z) (alloc_ok : bool)
  : Z * option CircularBuffer_t * list heap_event :=
  match cb with
  | None => (CB_ERROR_NULL, None, [])
  | Some b =>
      if Z.eqb size 0 || negb (isPowerOfTwo size)
      then (CB_ERROR_INVALID_SIZE, Some b, [])
      else
        let b := set_capacity size b in
        let b := set_indexMask (u32 (size - 1)) b in
        let b := set_writeIndex 0 b in
        let b := set_readIndex 0 b in
        let b := set_count 0 b in
        let ev := [EvCalloc size sizeof_SensorData_t] in
        if alloc_ok then
          let b := set_pBuffer (Some (replicate (Z.to_nat size) 0)) b in
          let b := set_isInitialized true b in
          (CB_SUCCESS, Some b, ev)
        else
          let b := set_pBuffer None b in
          (CB_ERROR_ALLOC, Some b, ev)
  end.

Definition cb_deinit (cb : option CircularBuffer_t)
  : Z * option CircularBuffer_t * list heap_event :=
  match cb with
  | None => (CB_ERROR_NULL, None, [])
  | Some b =>
      let '(b, ev) :=
        match pBuffer b with
        | Some _ => (set_pBuffer None b, [EvFree])
        | None => (b, [])
        end in
      let b := set_isInitialized false b in
      let b := set_capacity 0 b in
      let b := set_writeIndex 0 b in
      let b := set_readIndex 0 b in
      let b := set_count 0 b in
      (CB_SUCCESS, Some b, ev)
  end.

Definition cb_isEmpty (cb : option CircularBuffer_t) : bool :=
  match cb with
  | None => true
  | Some b => if negb (isInitialized b) then true else Z.eqb (count b) 0
  end.

Definition cb_pop (cb : option CircularBuffer_t) (pData : option SensorData_t)
  : exec (Z * option CircularBuffer_t * option SensorData_t) :=
  match cb, pData with
  | None, _ => Done (CB_ERROR_NULL, None, pData)
  | Some b, None => Done (CB_ERROR_NULL, Some b, None)
  | Some b, Some _ =>
      if negb (isInitialized b) then Done (CB_ERROR_NULL, Some b, pData)
      else if cb_isEmpty (Some b) then Done (CB_ERROR_EMPTY, Some b, pData)
      else
        x ← load (pBuffer b) (readIndex b);
        let b :=
          set_readIndex (wrapIndex (u32 (readIndex b + 1)) (indexMask b)) b in
        let b := set_count (u32 (count b - 1)) b in
        Done (CB_SUCCESS, Some b, Some x)
  end.

Definition cb_peek (cb : option CircularBuffer_t) (pData : option SensorData_t)
  : exec (Z * option CircularBuffer_t * option SensorData_t) :=
  match cb, pData with
  | None, _ => Done (CB_ERROR_NULL, None, pData)
  | Some b, None => Done (CB_ERROR_NULL, Some b, None)
  | Some b, Some _ =>
      if negb (isInitialized b) then Done (CB_ERROR_NULL, Some b, pData)
      else if cb_isEmpty (Some b) then Done (CB_ERROR_EMPTY, Some b, pData)
      else
        x ← load (pBuffer b) (readIndex b);
        Done (CB_SUCCESS, Some b, Some x)
  end.

Definition cb_getCount (cb : option CircularBuffer_t) : Z :=
  match cb with
  | None => 0
  | Some b => if negb (isInitialized b) then 0 else count b
  end.

Definition cb_clear (cb : option CircularBuffer_t)
  : Z * option CircularBuffer_t :=
  match cb with
  | None => (CB_ERROR_NULL, None)
  | Some b =>
      if negb (isInitialized b) then (CB_ERROR_NULL, Some b)
      else
        let b := set_writeIndex 0 b in
        let b := set_readIndex 0 b in
        let b := set_count 0 b in
        (CB_SUCCESS, Some b)
  end.

Definition cb_push_safe (plat : Platform) (policy : FullPolicy)
    (irq_enabled : bool) (cb : option CircularBuffer_t) (data : SensorData_t)
  : exec (Z * option CircularBuffer_t * bool) :=
  let irq := ENTER_CRITICAL plat irq_enabled in
  '(result, cb) ← cb_push policy cb data;
  let irq := EXIT_CRITICAL plat irq in
  Done (result, cb, irq).

Definition cb_pop_safe (plat : Platform) (irq_enabled : bool)
    (cb : option CircularBuffer_t) (pData : option SensorData_t)
  : exec (Z * option CircularBuffer_t * option SensorData_t * bool) :=
  let irq := ENTER_CRITICAL plat irq_enabled in
  '(result, cb, pData) ← cb_pop cb pData;
  let irq := EXIT_CRITICAL plat irq in
  Done (result, cb, pData, irq).

(** The listing loop of [cb_printContents]. *)
Fixpoint print_loop (b : CircularBuffer_t) (idx : Z) (n : nat)
  : exec (list SensorData_t) :=
  match n with
  | O => Done []
  | S n' =>
      x ← load (pBuffer b) idx;
      rest ← print_loop b (wrapIndex (u32 (idx + 1)) (indexMask b)) n';
      Done (x :: rest)
  end.

Definition cb_printContents (cb : option CircularBuffer_t)
  : exec (list SensorData_t) :=
  match cb with
  | None => Done []
  | Some b =>
      if negb (isInitialized b) then Done []
      else if cb_isEmpty (Some b) then Done []
      else print_loop b (readIndex b) (Z.to_nat (count b))
  end.

(** The inner loop of [cb_visualize]: does a walk of [n] steps from
    [idx] meet slot [i]? *)
Fixpoint has_data (b : CircularBuffer_t) (i idx : Z) (n : nat) : bool :=
  match n with
  | O => false
  | S n' =>
      if Z.eqb idx i then true
      else has_data b i (wrapIndex (u32 (idx + 1)) (indexMask b)) n'
  end.

(** The first row of [cb_visualize], [n] slots from slot [i] on: the
    value printed in a cell, or [None] for a blank cell. *)
Fixpoint visual_cells (b : CircularBuffer_t) (i : Z) (n : nat)
  : exec (list (option SensorData_t)) :=
  match n with
  | O => Done []
  | S n' =>
      cell ← (if has_data b i (readIndex b) (Z.to_nat (count b))
              then x ← load (pBuffer b) i; Done (Some x)
              else Done None);
      rest ← visual_cells b (u32 (i + 1)) n';
      Done (cell :: rest)
  end.

(** What the second row prints under a slot. *)
Inductive marker : Type :=
| MarkReadWrite
| MarkRead
| MarkWrite
| MarkBlank.

Fixpoint visual_marks (b : CircularBuffer_t) (i : Z) (n : nat) : list marker :=
  match n with
  | O => []
  | S n' =>
      (if Z.eqb i (readIndex b) && Z.eqb i (writeIndex b) then MarkReadWrite
       else if Z.eqb i (readIndex b) then MarkRead
       else if Z.eqb i (writeIndex b) then MarkWrite
       else MarkBlank)
      :: visual_marks b (u32 (i + 1)) n'
  end.

Definition cb_visualize (cb : option CircularBuffer_t)
  : exec (list (option SensorData_t) * list marker) :=
  match cb with
  | None => Done ([], [])
  | Some b =>
      if negb (isInitialized b) then Done ([], [])
      else
        cells ← visual_cells b 0 (Z.to_nat (capacity b));
        Done (cells, visual_marks b 0 (Z.to_nat (capacity b)))
  end.

End Mini.

(** ** Test drivers of [main] *)

(** The push loops of [main]: one [cb_push] per value, in order; the
    result codes are collected. *)
Fixpoint push_each (policy : FullPolicy) (cb : option CircularBuffer_t)
    (vs : list SensorData_t) : exec (list Z * option CircularBuffer_t) :=
  match vs with
  | [] => Done ([], cb)
  | v :: vs' =>
      '(r, cb) ← cb_push policy cb v;
      '(rs, cb) ← push_each policy cb vs';
      Done (r :: rs, cb)
  end.

(** The pop loop of [main]: [n] calls of [cb_pop] on the same output
    location; each call contributes its result code and the content of the
    location after it. *)
Fixpoint pop_times (cb : option CircularBuffer_t) (pData : option SensorData_t)
    (n : nat)
  : exec (list (Z * option SensorData_t) * option CircularBuffer_t
          * option SensorData_t) :=
  match n with
  | O => Done ([], cb, pData)
  | S n' =>
      '(r, cb, seen) ← cb_pop cb pData;
      '(rs, cb, last) ← pop_times cb seen n';
      Done ((r, seen) :: rs, cb, last)
  end.

(** ** The operations as one interface *)

Inductive op : Type :=
| OpPush (v : SensorData_t)
| OpPop
| OpPeek
| OpClear
| OpIsEmpty
| OpIsFull
| OpGetCount
| OpGetFreeSpace.

(** What a call hands back: an [int] status, a [bool] or a [uint32_t]. *)
Inductive retval : Type :=
| RetCode (code : Z)
| RetBool (x : bool)
| RetU32 (n : Z).

Definition call (policy : FullPolicy) (o : op) (cb : option CircularBuffer_t)
    (pData : option SensorData_t)
  : exec (retval * option CircularBuffer_t * option SensorData_t) :=
  match o with
  | OpPush v =>
      '(r, cb) ← cb_push policy cb v; Done (RetCode r, cb, pData)
  | OpPop =>
      '(r, cb, pData) ← cb_pop cb pData; Done (RetCode r, cb, pData)
  | OpPeek =>
      '(r, cb, pData) ← cb_peek cb pData; Done (RetCode r, cb, pData)
  | OpClear =>
      let '(r, cb) := cb_clear cb in Done (RetCode r, cb, pData)
  | OpIsEmpty => Done (RetBool (cb_isEmpty cb), cb, pData)
  | OpIsFull => Done (RetBool (cb_isFull cb), cb, pData)
  | OpGetCount => Done (RetU32 (cb_getCount cb), cb, pData)
  | OpGetFreeSpace => Done (RetU32 (cb_getFreeSpace cb), cb, pData)
  end.

(** ** The Ready state *)

Definition storage_ok (b : CircularBuffer_t) : Prop :=
  match pBuffer b with
  | Some l => Z.of_nat (length l) = capacity b
  | None => False
  end.

(** What [cb_init] establishes and every later operation keeps. *)
Record Ready (b : CircularBuffer_t) : Prop := mkReady {
  ready_init : isInitialized b = true;
  ready_pow2 : isPowerOfTwo (capacity b) = true;
  ready_cap : is_u32 (capacity b);
  ready_mask : indexMask b = capacity b - 1;
  ready_storage : storage_ok b;
  ready_read : 0 <= readIndex b < capacity b;
  ready_count : 0 <= count b <= capacity b;
  ready_write : writeIndex b = (readIndex b + count b) mod capacity b
}.

(** Buffers that a program obtains from a successful [cb_init] followed by
    any calls of the interface. *)
Inductive reachable (policy : FullPolicy) : CircularBuffer_t -> Prop :=
| reach_init b0 size alloc_ok b ev :
    is_u32 size ->
    cb_init (Some b0) size alloc_ok = (CB_SUCCESS, Some b, ev) ->
    reachable policy b
| reach_call b o pData r b' pData' :
    reachable policy b ->
    call policy o (Some b) pData = Done (r, Some b', pData') ->
    reachable policy b'.

(** An index either stays or moves one slot forward under the mask. *)
Definition stepped (mask old new : Z) : Prop :=
  new = old \/ new = Z.land (old + 1) mask.

(** How a call may move the two indices: [cb_push] and [cb_pop] step
    them, [cb_clear] rewinds them, every other call leaves them. *)
Definition index_move (o : op) (b b' : CircularBuffer_t) : Prop :=
  match o with
  | OpPush _ | OpPop =>
      stepped (indexMask b) (writeIndex b) (writeIndex b') /\
      stepped (indexMask b) (readIndex b) (readIndex b')
  | OpClear => writeIndex b' = 0 /\ readIndex b' = 0
  | _ => writeIndex b' = writeIndex b /\ readIndex b' = readIndex b
  end.

(** What a call answers on a buffer that is not initialized. *)
Definition not_ready_answer (o : op) : retval :=
  match o with
  | OpPush _ | OpPop | OpPeek | OpClear => RetCode CB_ERROR_NULL_POINTER
  | OpIsEmpty => RetBool true
  | OpIsFull => RetBool false
  | OpGetCount | OpGetFreeSpace => RetU32 0
  end.

(** The outcome of a guarded call with the interrupt flag left out. *)
Definition without_irq {A : Type} (m : exec (A * bool)) : exec A :=
  '(x, _) ← m; Done x.

(** ** The logical view *)

(** The [n] slots met from [idx] on, going round modulo [cap]. *)
Fixpoint walk (l : list SensorData_t) (cap : Z) (idx : Z) (n : nat)
  : list SensorData_t :=
  match n with
  | O => []
  | S n' => l !!! Z.to_nat idx :: walk l cap ((idx + 1) mod cap) n'
  end.

(** The live elements, oldest first: [count] slots from [readIndex]. *)
Definition contents (b : CircularBuffer_t) : list SensorData_t :=
  match pBuffer b with
  | Some l => walk l (capacity b) (readIndex b) (Z.to_nat (count b))
  | None => []
  end.

(** ** Concrete buffers used in examples *)

(** An object of automatic storage before [cb_init], all fields zero. *)
Definition blank : CircularBuffer_t := mkCB None 0 0 0 0 0 false.

(** The buffer [cb_init] produces for [size] on [blank]. *)
Definition fresh (size : Z) : CircularBuffer_t :=
  match cb_init (Some blank) size true with
  | (_, Some b, _) => b
  | _ => blank
  end.

(** [fresh size] after [cb_deinit]. *)
Definition closed (size : Z) : CircularBuffer_t :=
  match cb_deinit (Some (fresh size)) with
  | (_, Some b, _) => b
  | _ => blank
  end.

(** [fresh size] after pushing [vs]. *)
Definition filled (policy : FullPolicy) (size : Z) (vs : list SensorData_t)
  : CircularBuffer_t :=
  match push_each policy (Some (fresh size)) vs with
  | Done (_, Some b) => b
  | _ => blank
  end.

(** ** Sequences of calls and the queue they stand for *)

(** Calls made one after the other on the same buffer and the same
    output location; the results are collected in order. *)
Fixpoint run (policy : FullPolicy) (ops : list op)
    (cb : option CircularBuffer_t) (pData : option SensorData_t)
  : exec (list retval * option CircularBuffer_t * option SensorData_t) :=
  match ops with
  | [] => Done ([], cb, pData)
  | o :: ops' =>
      '(r, cb, pData) ← call policy o cb pData;
      '(rs, cb, pData) ← run policy ops' cb pData;
      Done (r :: rs, cb, pData)
  end.

(** A bounded first-in first-out queue of at most [cap] values, oldest
    first, answering the same interface. *)
Definition queue_call (policy : FullPolicy) (cap : Z) (q : list SensorData_t)
    (o : op) (pData : option SensorData_t)
  : retval * list SensorData_t * option SensorData_t :=
  match o with
  | OpPush v =>
      if Z.ltb (Z.of_nat (length q)) cap
      then (RetCode CB_SUCCESS, q ++ [v], pData)
      else match policy with
           | POLICY_OVERWRITE_OLDEST => (RetCode CB_SUCCESS, drop 1 q ++ [v], pData)
           | POLICY_REJECT_NEW => (RetCode CB_ERROR_FULL, q, pData)
           end
  | OpPop =>
      match pData, q with
      | None, _ => (RetCode CB_ERROR_NULL_POINTER, q, None)
      | Some _, [] => (RetCode CB_ERROR_EMPTY, q, pData)
      | Some _, x :: q' => (RetCode CB_SUCCESS, q', Some x)
      end
  | OpPeek =>
      match pData, q with
      | None, _ => (RetCode CB_ERROR_NULL_POINTER, q, None)
      | Some _, [] => (RetCode CB_ERROR_EMPTY, q, pData)
      | Some _, x :: _ => (RetCode CB_SUCCESS, q, Some x)
      end
  | OpClear => (RetCode CB_SUCCESS, [], pData)
  | OpIsEmpty => (RetBool (Z.eqb (Z.of_nat (length q)) 0), q, pData)
  | OpIsFull => (RetBool (Z.eqb (Z.of_nat (length q)) cap), q, pData)
  | OpGetCount => (RetU32 (Z.of_nat (length q)), q, pData)
  | OpGetFreeSpace => (RetU32 (cap - Z.of_nat (length q)), q, pData)
  end.

Fixpoint queue_run (policy : FullPolicy) (cap : Z) (q : list SensorData_t)
    (ops : list op) (pData : option SensorData_t)
  : list retval * list SensorData_t * option SensorData_t :=
  match ops with
  | [] => ([], q, pData)
  | o :: ops' =>
      let '(r, q, pData) := queue_call policy cap q o pData in
      let '(rs, q, pData) := queue_run policy cap q ops' pData in
      (r :: rs, q, pData)
  end.

(** * Properties *)

(** ** Arithmetic of masks and powers of two *)

Lemma u32_small x : is_u32 x -> u32 x = x.
Proof. unfold is_u32, u32. intros H. now apply Z.mod_small. Qed.

Lemma pow2_is_power k : 0 <= k < 32 -> isPowerOfTwo (2 ^ k) = true.
Proof.
  intros Hk. unfold isPowerOfTwo.
  assert (Hpos : 0 < 2 ^ k) by (apply Z.pow_pos_nonneg; lia).
  assert (Hlt : 2 ^ k < U32_MOD).
  { unfold U32_MOD. apply Z.pow_lt_mono_r; lia. }
  apply andb_true_intro. split.
  - apply negb_true_iff, Z.eqb_neq. lia.
  - apply Z.eqb_eq. rewrite u32_small by (unfold is_u32; lia).
    replace (2 ^ k - 1) with (Z.ones k) by (rewrite Z.ones_equiv; lia).
    rewrite Z.land_ones by lia. apply Z.mod_same. lia.
Qed.

Lemma power_is_pow2 n :
  is_u32 n -> isPowerOfTwo n = true -> exists k, 0 <= k < 32 /\ n = 2 ^ k.
Proof.
  intros Hn H. unfold isPowerOfTwo in H.
  apply andb_prop in H as [Hnz Hland].
  apply negb_true_iff, Z.eqb_neq in Hnz. apply Z.eqb_eq in Hland.
  unfold is_u32 in Hn.
  rewrite u32_small in Hland by (unfold is_u32; lia).
  assert (Hpos : 0 < n) by lia.
  pose proof (Z.log2_spec n Hpos) as [Hlo Hhi].
  pose proof (Z.log2_nonneg n) as Hk.
  exists (Z.log2 n). split.
  - split; [assumption |]. apply Z.log2_lt_pow2; [assumption |].
    unfold U32_MOD in Hn. lia.
  - destruct (Z.eq_dec n (2 ^ Z.log2 n)) as [|Hne]; [assumption | exfalso].
    assert (Hpred : Z.log2 (n - 1) = Z.log2 n).
    { apply Z.log2_unique; lia. }
    assert (Hb1 : Z.testbit n (Z.log2 n) = true) by now apply Z.bit_log2.
    assert (Hb2 : Z.testbit (n - 1) (Z.log2 n) = true).
    { rewrite <- Hpred. apply Z.bit_log2.
      assert (0 < 2 ^ Z.log2 n) by (apply Z.pow_pos_nonneg; lia). lia. }
    assert (Hb : Z.testbit (Z.land n (n - 1)) (Z.log2 n) = true).
    { rewrite Z.land_spec, Hb1, Hb2. reflexivity. }
    rewrite Hland, Z.bits_0 in Hb. discriminate.
Qed.

Lemma isPowerOfTwo_iff n :
  is_u32 n -> isPowerOfTwo n = true <-> exists k, 0 <= k < 32 /\ n = 2 ^ k.
Proof.
  intros Hn. split.
  - now apply power_is_pow2.
  - intros (k & Hk & ->). now apply pow2_is_power.
Qed.

(** Masking with [capacity - 1] is reduction modulo [capacity]. *)
Lemma land_mask_mod cap x :
  is_u32 cap -> isPowerOfTwo cap = true -> Z.land x (cap - 1) = x mod cap.
Proof.
  intros Hu Hp. destruct (power_is_pow2 cap Hu Hp) as (k & Hk & ->).
  replace (2 ^ k - 1) with (Z.ones k) by (rewrite Z.ones_equiv; lia).
  apply Z.land_ones. lia.
Qed.

Lemma power_pos cap : is_u32 cap -> isPowerOfTwo cap = true -> 0 < cap.
Proof.
  intros Hu Hp. destruct (power_is_pow2 cap Hu Hp) as (k & Hk & ->).
  apply Z.pow_pos_nonneg; lia.
Qed.

(** ** Consequences of the Ready state *)

Section ReadyFacts.
Variable b : CircularBuffer_t.
Hypothesis HR : Ready b.

Lemma ready_cap_pos : 0 < capacity b.
Proof. destruct HR. now apply power_pos. Qed.

Lemma ready_wrap x : wrapIndex b x = x mod capacity b.
Proof.
  unfold wrapIndex. destruct HR as [_ Hp Hu Hm _ _ _ _].
  rewrite Hm. now apply land_mask_mod.
Qed.

Lemma ready_write_range : 0 <= writeIndex b < capacity b.
Proof.
  rewrite (ready_write b HR). apply Z.mod_pos_bound, ready_cap_pos.
Qed.

Lemma ready_next i :
  0 <= i < capacity b -> wrapIndex b (u32 (i + 1)) = (i + 1) mod capacity b.
Proof.
  intros Hi. rewrite ready_wrap. f_equal. apply u32_small.
  destruct HR as [_ _ Hu _ _ _ _ _]. unfold is_u32 in *. lia.
Qed.

Lemma ready_slots :
  exists l, pBuffer b = Some l /\ Z.of_nat (length l) = capacity b.
Proof.
  destruct HR as [_ _ _ _ Hs _ _ _]. unfold storage_ok in Hs.
  destruct (pBuffer b) as [l|]; [eauto | contradiction].
Qed.

Lemma ready_load i :
  0 <= i < capacity b -> exists x, load (pBuffer b) i = Done x.
Proof.
  intros Hi. destruct ready_slots as (l & Hl & Hlen). rewrite Hl.
  unfold load. destruct (Z.ltb_spec i 0); [lia |].
  destruct (lookup_lt_is_Some_2 l (Z.to_nat i)) as [x Hx]; [lia |].
  rewrite Hx. eauto.
Qed.
End ReadyFacts.

(** ** What each operation does to a Ready buffer *)

Ltac setters :=
  unfold set_pBuffer, set_writeIndex, set_readIndex, set_count, set_capacity,
    set_indexMask, set_isInitialized in *; simpl in *.

Ltac fields :=
  cbn [pBuffer writeIndex readIndex count capacity indexMask isInitialized
       set_pBuffer set_writeIndex set_readIndex set_count set_capacity
       set_indexMask set_isInitialized].

Lemma Ready_fresh b0 size alloc_ok b ev :
  is_u32 size ->
  cb_init (Some b0) size alloc_ok = (CB_SUCCESS, Some b, ev) ->
  Ready b /\ count b = 0 /\ capacity b = size.
Proof.
  intros Hu. unfold cb_init.
  destruct (Z.eqb_spec size 0) as [|Hnz]; simpl; [discriminate |].
  destruct (isPowerOfTwo size) eqn:Hp; simpl; [| discriminate].
  destruct alloc_ok; [| discriminate].
  intros [= <- <-]. simpl.
  assert (Hpos : 0 < size) by now apply power_pos.
  split; [| split; reflexivity].
  constructor; simpl.
  - reflexivity.
  - assumption.
  - assumption.
  - apply u32_small. unfold is_u32 in *. lia.
  - unfold storage_ok. simpl. rewrite length_replicate. lia.
  - lia.
  - lia.
  - rewrite Z.mod_0_l; lia.
Qed.

(** A push that meets free space. *)
Lemma cb_push_room policy b v l :
  Ready b -> pBuffer b = Some l -> count b < capacity b ->
  cb_push policy (Some b) v =
    Done (CB_SUCCESS,
          Some (mkCB (Some (<[Z.to_nat (writeIndex b) := v]> l))
                     ((writeIndex b + 1) mod capacity b) (readIndex b)
                     (count b + 1) (capacity b) (indexMask b) true)).
Proof.
  intros HR Hl Hc.
  pose proof (ready_write_range b HR) as Hw.
  pose proof (ready_next b HR _ Hw) as Hn.
  destruct HR as [Hi Hp Hu Hm Hs Hr Hcnt Hlink].
  unfold storage_ok in Hs. rewrite Hl in Hs.
  unfold cb_push, cb_isFull. rewrite Hi. simpl.
  destruct (Z.eqb_spec (count b) (capacity b)); [lia |].
  simpl. rewrite Hl. unfold store.
  destruct (Z.ltb_spec (writeIndex b) 0); [lia |].
  destruct (Z.ltb_spec (writeIndex b) (Z.of_nat (length l))); [| lia].
  simpl. unfold wrapIndex in *. setters. rewrite Hn, Hi.
  rewrite u32_small by (unfold is_u32 in *; lia). reflexivity.
Qed.

(** A push that meets a full buffer under [POLICY_OVERWRITE_OLDEST]. *)
Lemma cb_push_overwrite b v l :
  Ready b -> pBuffer b = Some l -> count b = capacity b ->
  cb_push POLICY_OVERWRITE_OLDEST (Some b) v =
    Done (CB_SUCCESS,
          Some (mkCB (Some (<[Z.to_nat (writeIndex b) := v]> l))
                     ((writeIndex b + 1) mod capacity b)
                     ((readIndex b + 1) mod capacity b)
                     (count b) (capacity b) (indexMask b) true)).
Proof.
  intros HR Hl Hc.
  pose proof (ready_write_range b HR) as Hw.
  pose proof (ready_next b HR _ Hw) as Hn.
  pose proof (ready_next b HR _ (ready_read b HR)) as Hnr.
  destruct HR as [Hi Hp Hu Hm Hs Hr Hcnt Hlink].
  unfold storage_ok in Hs. rewrite Hl in Hs.
  unfold cb_push, cb_isFull. rewrite Hi. simpl.
  destruct (Z.eqb_spec (count b) (capacity b)); [| lia].
  simpl. rewrite Hl. unfold store.
  destruct (Z.ltb_spec (writeIndex b) 0); [lia |].
  destruct (Z.ltb_spec (writeIndex b) (Z.of_nat (length l))); [| lia].
  simpl. unfold wrapIndex in *. setters. rewrite Hn, Hnr, Hi. reflexivity.
Qed.

(** A push that meets a full buffer under [POLICY_REJECT_NEW]. *)
Lemma cb_push_reject b v :
  isInitialized b = true -> count b = capacity b ->
  cb_push POLICY_REJECT_NEW (Some b) v = Done (CB_ERROR_FULL, Some b).
Proof.
  intros Hi Hc. unfold cb_push, cb_isFull. rewrite Hi. simpl.
  rewrite Hc, Z.eqb_refl. reflexivity.
Qed.

(** A pop that meets at least one element. *)
Lemma cb_pop_some b old :
  Ready b -> 0 < count b ->
  exists x,
    load (pBuffer b) (readIndex b) = Done x /\
    cb_pop (Some b) (Some old) =
      Done (CB_SUCCESS,
            Some (mkCB (pBuffer b) (writeIndex b)
                       ((readIndex b + 1) mod capacity b)
                       (count b - 1) (capacity b) (indexMask b) true),
            Some x).
Proof.
  intros HR Hc.
  destruct (ready_load b HR _ (ready_read b HR)) as [x Hx].
  pose proof (ready_next b HR _ (ready_read b HR)) as Hnr.
  destruct HR as [Hi Hp Hu Hm Hs Hr Hcnt Hlink].
  exists x. split; [assumption |].
  unfold cb_pop, cb_isEmpty. rewrite Hi. simpl.
  destruct (Z.eqb_spec (count b) 0); [lia |].
  rewrite Hx. simpl. unfold wrapIndex in *. setters. rewrite Hnr, Hi.
  rewrite u32_small by (unfold is_u32 in *; lia). reflexivity.
Qed.

Lemma cb_pop_none b old :
  isInitialized b = true -> count b = 0 ->
  cb_pop (Some b) (Some old) = Done (CB_ERROR_EMPTY, Some b, Some old).
Proof.
  intros Hi Hc. unfold cb_pop, cb_isEmpty. rewrite Hi. simpl.
  rewrite Hc. reflexivity.
Qed.

(** The teaching version pushes exactly as the main one does. *)
Lemma mini_push_agrees policy cb v :
  Mini.cb_push policy cb v = cb_push policy cb v.
Proof. reflexivity. Qed.

(** ** The logical view and the debug listing *)

Lemma walk_length l cap idx n : length (walk l cap idx n) = n.
Proof.
  revert idx. induction n as [|n IH]; intros idx; simpl; [reflexivity |].
  now rewrite IH.
Qed.

Lemma mod_next cap i k :
  0 < cap -> ((i + 1) mod cap + k) mod cap = (i + (k + 1)) mod cap.
Proof.
  intros Hc. rewrite Z.add_mod_idemp_l by lia. f_equal. lia.
Qed.

Lemma mod_shift_ne cap i k :
  0 <= i < cap -> 0 < k < cap -> (i + k) mod cap <> i.
Proof.
  intros Hi Hk. destruct (Z_lt_le_dec (i + k) cap) as [Hlt|Hge].
  - rewrite Z.mod_small; lia.
  - replace (i + k) with ((i + k - cap) + 1 * cap) by lia.
    rewrite Z_mod_plus_full, Z.mod_small; lia.
Qed.

Lemma mod_full_turn cap i : 0 <= i < cap -> (i + cap) mod cap = i.
Proof.
  intros Hi. replace (i + cap) with (i + 1 * cap) by lia.
  rewrite Z_mod_plus_full. apply Z.mod_small. lia.
Qed.

(** Writing the slot that lies [n] steps ahead appends to the walk. *)
Lemma walk_insert_snoc l cap v n :
  0 < cap -> Z.of_nat (length l) = cap -> Z.of_nat n < cap ->
  forall idx, 0 <= idx < cap ->
    walk (<[Z.to_nat ((idx + Z.of_nat n) mod cap) := v]> l) cap idx (S n)
    = walk l cap idx n ++ [v].
Proof.
  intros Hc Hlen. induction n as [|n IH]; intros Hn idx Hidx.
  - simpl. rewrite Z.add_0_r, Z.mod_small by lia.
    rewrite list_lookup_total_insert_eq by lia. reflexivity.
  - assert (Hidx' : 0 <= (idx + 1) mod cap < cap)
      by (apply Z.mod_pos_bound; lia).
    change (walk ?l' cap idx (S (S n)))
      with (l' !!! Z.to_nat idx :: walk l' cap ((idx + 1) mod cap) (S n)).
    change (walk l cap idx (S n))
      with (l !!! Z.to_nat idx :: walk l cap ((idx + 1) mod cap) n).
    rewrite <- app_comm_cons. f_equal.
    + apply list_lookup_total_insert_ne.
      pose proof (mod_shift_ne cap idx (Z.of_nat (S n)) Hidx ltac:(lia)).
      pose proof (Z.mod_pos_bound (idx + Z.of_nat (S n)) cap Hc). lia.
    + replace ((idx + Z.of_nat (S n)) mod cap)
        with (((idx + 1) mod cap + Z.of_nat n) mod cap)
        by (rewrite mod_next by lia; f_equal; lia).
      apply IH; [lia | assumption].
Qed.

(** The listing of [cb_printContents] is the logical view. *)
Lemma print_loop_walk b l n :
  Ready b -> pBuffer b = Some l ->
  forall idx, 0 <= idx < capacity b ->
    print_loop b idx n = Done (walk l (capacity b) idx n).
Proof.
  intros HR Hl. induction n as [|n IH]; intros idx Hidx; simpl.
  - reflexivity.
  - destruct (ready_slots b HR) as (l' & Hl' & Hlen).
    rewrite Hl in Hl'. injection Hl' as <-.
    rewrite Hl. unfold load. destruct (Z.ltb_spec idx 0); [lia |].
    rewrite (list_lookup_lookup_total_lt l (Z.to_nat idx)) by lia. simpl.
    rewrite (ready_next b HR idx Hidx), IH.
    + reflexivity.
    + apply Z.mod_pos_bound, (ready_cap_pos b HR).
Qed.

Lemma cb_printContents_contents b :
  Ready b -> cb_printContents (Some b) = Done (contents b).
Proof.
  intros HR. destruct (ready_slots b HR) as (l & Hl & Hlen).
  unfold cb_printContents, contents, cb_isEmpty.
  rewrite (ready_init b HR), Hl. simpl.
  destruct (Z.eqb_spec (count b) 0) as [->|Hne].
  - reflexivity.
  - apply print_loop_walk; [assumption.. | apply (ready_read b HR)].
Qed.

Lemma contents_length b :
  Ready b -> Z.of_nat (length (contents b)) = count b.
Proof.
  intros HR. destruct (ready_slots b HR) as (l & Hl & Hlen).
  unfold contents. rewrite Hl, walk_length.
  pose proof (ready_count b HR). lia.
Qed.

(** ** Operations on the logical view *)

Lemma push_room_spec policy b v :
  Ready b -> count b < capacity b ->
  exists b',
    cb_push policy (Some b) v = Done (CB_SUCCESS, Some b') /\
    Ready b' /\
    contents b' = contents b ++ [v] /\
    count b' = count b + 1 /\
    capacity b' = capacity b /\
    indexMask b' = indexMask b /\
    readIndex b' = readIndex b /\
    writeIndex b' = (writeIndex b + 1) mod capacity b.
Proof.
  intros HR Hc. destruct (ready_slots b HR) as (l & Hl & Hlen).
  pose proof (ready_cap_pos b HR) as Hpos.
  pose proof (ready_write_range b HR) as Hw.
  eexists. split; [apply (cb_push_room policy b v l HR Hl Hc) |].
  destruct HR as [Hi Hp Hu Hm Hs Hr Hcnt Hlink].
  split; [| split]; [| | repeat split; reflexivity].
  - constructor; simpl; try assumption; try reflexivity; try lia.
    + unfold storage_ok. simpl. rewrite length_insert. assumption.
    + rewrite Hlink, Z.add_mod_idemp_l by lia. f_equal. lia.
  - unfold contents. simpl. rewrite Hl.
    replace (Z.to_nat (count b + 1)) with (S (Z.to_nat (count b))) by lia.
    rewrite Hlink.
    replace (count b) with (Z.of_nat (Z.to_nat (count b))) at 1 by lia.
    apply walk_insert_snoc; lia.
Qed.

Lemma push_overwrite_spec b v :
  Ready b -> count b = capacity b ->
  exists b',
    cb_push POLICY_OVERWRITE_OLDEST (Some b) v = Done (CB_SUCCESS, Some b') /\
    Ready b' /\
    contents b' = drop 1 (contents b) ++ [v] /\
    count b' = capacity b /\
    capacity b' = capacity b /\
    indexMask b' = indexMask b /\
    readIndex b' = (readIndex b + 1) mod capacity b /\
    writeIndex b' = (writeIndex b + 1) mod capacity b /\
    pBuffer b' = (fun l => <[Z.to_nat (writeIndex b) := v]> l) <$> pBuffer b.
Proof.
  intros HR Hc. destruct (ready_slots b HR) as (l & Hl & Hlen).
  pose proof (ready_cap_pos b HR) as Hpos.
  pose proof (ready_write_range b HR) as Hw.
  eexists. split; [apply (cb_push_overwrite b v l HR Hl Hc) |].
  destruct HR as [Hi Hp Hu Hm Hs Hr Hcnt Hlink].
  assert (Hwr : writeIndex b = readIndex b).
  { rewrite Hlink, Hc. now apply mod_full_turn. }
  split; [| split]; [| | rewrite Hl; repeat split; try reflexivity; assumption].
  - constructor; simpl; try assumption; try reflexivity; try lia.
    + unfold storage_ok. simpl. rewrite length_insert. assumption.
    + apply Z.mod_pos_bound. lia.
    + rewrite Hwr, Hc, Z.add_mod_idemp_l by lia.
      replace (readIndex b + 1 + capacity b)
        with (readIndex b + 1 + 1 * capacity b) by lia.
      now rewrite Z_mod_plus_full.
  - unfold contents. simpl. rewrite Hl, Hc.
    replace (Z.to_nat (capacity b))
      with (S (Z.to_nat (capacity b - 1))) by lia.
    simpl. rewrite drop_0.
    replace (writeIndex b)
      with (((readIndex b + 1) mod capacity b
             + Z.of_nat (Z.to_nat (capacity b - 1))) mod capacity b).
    + apply walk_insert_snoc; try lia. apply Z.mod_pos_bound. lia.
    + rewrite mod_next, Hwr by lia.
      replace (Z.of_nat (Z.to_nat (capacity b - 1)) + 1)
        with (capacity b) by lia.
      now apply mod_full_turn.
Qed.

Lemma pop_spec b old :
  Ready b -> 0 < count b ->
  exists x b',
    cb_pop (Some b) (Some old) = Done (CB_SUCCESS, Some b', Some x) /\
    Ready b' /\
    contents b = x :: contents b' /\
    count b' = count b - 1 /\
    capacity b' = capacity b /\
    indexMask b' = indexMask b /\
    pBuffer b' = pBuffer b /\
    readIndex b' = (readIndex b + 1) mod capacity b /\
    writeIndex b' = writeIndex b.
Proof.
  intros HR Hc. destruct (ready_slots b HR) as (l & Hl & Hlen).
  pose proof (ready_cap_pos b HR) as Hpos.
  destruct (cb_pop_some b old HR Hc) as (x & Hx & Hpop).
  exists x. eexists. split; [exact Hpop |].
  destruct HR as [Hi Hp Hu Hm Hs Hr Hcnt Hlink].
  split; [| split]; [| | repeat split; reflexivity].
  - constructor; simpl; try assumption; try reflexivity; try lia.
    + apply Z.mod_pos_bound. lia.
    + rewrite Hlink, Z.add_mod_idemp_l by lia. f_equal. lia.
  - unfold contents. simpl. rewrite Hl.
    replace (Z.to_nat (count b)) with (S (Z.to_nat (count b - 1))) by lia.
    simpl. f_equal.
    rewrite Hl in Hx. unfold load in Hx.
    destruct (Z.ltb_spec (readIndex b) 0); [lia |].
    destruct (l !! Z.to_nat (readIndex b)) as [y|] eqn:Hy; [| discriminate].
    injection Hx as <-. now apply list_lookup_total_correct.
Qed.

(** ** Every call keeps the Ready state *)

Lemma stepped_refl mask i : stepped mask i i.
Proof. now left. Qed.

Lemma stepped_next b i :
  Ready b -> stepped (indexMask b) i ((i + 1) mod capacity b).
Proof.
  intros HR. right. symmetry. apply (ready_wrap b HR).
Qed.

Create HintDb ring_buffer.
#[local] Hint Resolve stepped_refl stepped_next : ring_buffer.

Lemma Ready_clear b :
  Ready b ->
  Ready (mkCB (pBuffer b) 0 0 0 (capacity b) (indexMask b) (isInitialized b)).
Proof.
  intros HR. pose proof (ready_cap_pos b HR).
  destruct HR as [Hi Hp Hu Hm Hs Hr Hcnt Hlink].
  constructor; simpl; try assumption; try lia.
  rewrite Z.mod_0_l; lia.
Qed.

Ltac settle :=
  cbn; split; [reflexivity | split; [assumption | split; auto with ring_buffer]].

Lemma call_ready policy o b pData :
  Ready b ->
  exists r b' pData',
    call policy o (Some b) pData = Done (r, Some b', pData') /\
    Ready b' /\ index_move o b b'.
Proof.
  intros HR. pose proof (ready_init b HR) as Hi.
  pose proof (ready_count b HR) as Hcnt.
  destruct o as [v| | | | | | |]; cbn [call].
  - (* push *)
    destruct (Z_lt_le_dec (count b) (capacity b)) as [Hlt|Hge].
    + destruct (push_room_spec policy b v HR Hlt)
        as (b' & -> & HR' & _ & _ & _ & _ & Hr' & Hw').
      exists (RetCode CB_SUCCESS), b', pData. cbn.
      rewrite Hr', Hw'. settle.
    + assert (Hfull : count b = capacity b) by lia.
      destruct policy.
      * destruct (push_overwrite_spec b v HR Hfull)
          as (b' & -> & HR' & _ & _ & _ & _ & Hr' & Hw' & _).
        exists (RetCode CB_SUCCESS), b', pData. cbn.
        rewrite Hr', Hw'. settle.
      * rewrite (cb_push_reject b v Hi Hfull).
        exists (RetCode CB_ERROR_FULL), b, pData. cbn.
        settle.
  - (* pop *)
    destruct pData as [old|].
    + destruct (Z.eq_dec (count b) 0) as [Hz|Hnz].
      * rewrite (cb_pop_none b old Hi Hz).
        exists (RetCode CB_ERROR_EMPTY), b, (Some old). cbn.
        settle.
      * destruct (pop_spec b old HR ltac:(lia))
          as (x & b' & -> & HR' & _ & _ & _ & _ & _ & Hr' & Hw').
        exists (RetCode CB_SUCCESS), b', (Some x). cbn.
        rewrite Hr', Hw'. settle.
    + unfold cb_pop. rewrite Hi. cbn.
      exists (RetCode CB_ERROR_NULL_POINTER), b, None.
      settle.
  - (* peek *)
    destruct pData as [old|]; unfold cb_peek, cb_isEmpty.
    + rewrite Hi. cbn. destruct (Z.eqb_spec (count b) 0) as [Hz|Hnz].
      * exists (RetCode CB_ERROR_EMPTY), b, (Some old).
        settle.
      * destruct (ready_load b HR _ (ready_read b HR)) as [x ->]. cbn.
        exists (RetCode CB_SUCCESS), b, (Some x). settle.
    + exists (RetCode CB_ERROR_NULL_POINTER), b, None.
      settle.
  - (* clear *)
    unfold cb_clear. rewrite Hi. cbn. eexists _, _, _. split; [reflexivity |].
    split; [apply (Ready_clear b HR) | split; reflexivity].
  - eexists _, b, _. settle.
  - eexists _, b, _. settle.
  - eexists _, b, _. settle.
  - eexists _, b, _. settle.
Qed.

Lemma reachable_Ready policy b : reachable policy b -> Ready b.
Proof.
  induction 1 as [b0 size a b ev Hu Hinit | b o pData r b' pData' _ IH Hcall].
  - now destruct (Ready_fresh b0 size a b ev Hu Hinit).
  - destruct (call_ready policy o b pData IH) as (r1 & b1 & p1 & Hc & HR & _).
    rewrite Hcall in Hc. now injection Hc as _ <- _.
Qed.

(** ** The test loops *)

Lemma push_each_room policy vs :
  forall b,
    Ready b -> count b + Z.of_nat (length vs) <= capacity b ->
    exists b',
      push_each policy (Some b) vs = Done (map (fun _ => CB_SUCCESS) vs, Some b')
      /\ Ready b'
      /\ contents b' = contents b ++ vs
      /\ count b' = count b + Z.of_nat (length vs)
      /\ capacity b' = capacity b.
Proof.
  induction vs as [|v vs IH]; intros b HR Hfit.
  - exists b. cbn. rewrite app_nil_r, Z.add_0_r. auto.
  - cbn [length] in Hfit.
    destruct (push_room_spec policy b v HR ltac:(lia))
      as (b1 & Hpush & HR1 & Hcont1 & Hcnt1 & Hcap1 & _).
    destruct (IH b1 HR1 ltac:(lia)) as (b' & Hrest & HR' & Hcont & Hcnt & Hcap).
    exists b'. cbn [push_each map]. rewrite Hpush. cbn. rewrite Hrest. cbn.
    split; [reflexivity |]. split; [assumption |].
    split; [| split].
    + rewrite Hcont, Hcont1, <- app_assoc. reflexivity.
    + cbn [length]. lia.
    + congruence.
Qed.

Lemma last_cons_default {A} (x d : A) (t : list A) :
  List.last (x :: t) d = List.last t x.
Proof.
  revert x d. induction t as [|y t IH]; intros x d; [reflexivity |].
  change (List.last (x :: y :: t) d) with (List.last (y :: t) d).
  rewrite (IH y d), (IH y x). reflexivity.
Qed.

Lemma pop_times_spec n :
  forall b old,
    Ready b -> Z.of_nat n <= count b ->
    exists b',
      pop_times (Some b) (Some old) n
      = Done (map (fun x => (CB_SUCCESS, Some x)) (take n (contents b)),
              Some b', Some (List.last (take n (contents b)) old))
      /\ Ready b'
      /\ contents b' = drop n (contents b)
      /\ count b' = count b - Z.of_nat n.
Proof.
  induction n as [|n IH]; intros b old HR Hn.
  - exists b. cbn. rewrite drop_0, Z.sub_0_r. auto.
  - destruct (pop_spec b old HR ltac:(lia))
      as (x & b1 & Hpop & HR1 & Hcont & Hcnt & _).
    destruct (IH b1 x HR1 ltac:(lia)) as (b' & Hrest & HR' & Hcont' & Hcnt').
    exists b'. cbn [pop_times]. rewrite Hpop. cbn. rewrite Hrest. cbn.
    rewrite Hcont. cbn [take drop map]. rewrite last_cons_default.
    split; [reflexivity |]. split; [assumption |]. split; [assumption | lia].
Qed.

(** ** The run of [main] *)

(** Tests 2 to 4 of [main] under the default policy: five pushes, two
    pops that hand back 10 and 20, ten more pushes of which five
    overwrite, and the listing of the eight newest values at the end. *)
Example main_tests_2_to_4 :
  exists b1 b2 b3,
    push_each POLICY_OVERWRITE_OLDEST (Some (fresh 8)) [10; 20; 30; 40; 50]
    = Done ([0; 0; 0; 0; 0], Some b1)
    /\ pop_times (Some b1) (Some 0) 2
       = Done ([(CB_SUCCESS, Some 10); (CB_SUCCESS, Some 20)], Some b2, Some 20)
    /\ push_each POLICY_OVERWRITE_OLDEST (Some b2)
         [100; 110; 120; 130; 140; 150; 160; 170; 180; 190]
       = Done ([0; 0; 0; 0; 0; 0; 0; 0; 0; 0], Some b3)
    /\ cb_getCount (Some b3) = 8
    /\ cb_isFull (Some b3) = true
    /\ cb_printContents (Some b3)
       = Done [120; 130; 140; 150; 160; 170; 180; 190].
Proof.
  eexists _, _, _.
  split; [vm_compute; reflexivity |].
  split; [vm_compute; reflexivity |].
  split; [vm_compute; reflexivity |].
  repeat split.
Qed.

(** * The specification, claim by claim *)

Ltac ready_by_computation :=
  constructor; vm_compute; intuition congruence.

(** C1, amended.  On a Ready buffer that holds no element, pushing
    [v1..vN] with [N <= capacity] succeeds every time, and the [N] pops
    that follow succeed and hand back exactly [v1..vN] in insertion
    order, leaving the buffer empty again; this holds under either full
    policy, since no overwrite can occur. *)
Theorem fifo_order policy b vs old :
  Ready b -> count b = 0 -> Z.of_nat (length vs) <= capacity b ->
  exists b1 b2,
    push_each policy (Some b) vs = Done (map (fun _ => CB_SUCCESS) vs, Some b1)
    /\ pop_times (Some b1) (Some old) (length vs)
       = Done (map (fun v => (CB_SUCCESS, Some v)) vs, Some b2,
               Some (List.last vs old))
    /\ count b2 = 0.
Proof.
  intros HR Hempty Hfit.
  destruct (push_each_room policy vs b HR ltac:(lia))
    as (b1 & Hpush & HR1 & Hcont & Hcnt & _).
  assert (Hnil : contents b = []).
  { apply nil_length_inv. pose proof (contents_length b HR). lia. }
  rewrite Hnil in Hcont. cbn in Hcont.
  destruct (pop_times_spec (length vs) b1 old HR1 ltac:(lia))
    as (b2 & Hpop & _ & _ & Hcnt2).
  rewrite Hcont, firstn_all in Hpop.
  exists b1, b2. split; [assumption |]. split; [assumption | lia].
Qed.

Lemma fifo_order_witness :
  Ready (fresh 4) /\ count (fresh 4) = 0 /\
  Z.of_nat (length [10; 20; 30]) <= capacity (fresh 4) /\
  exists b1 b2,
    push_each POLICY_REJECT_NEW (Some (fresh 4)) [10; 20; 30]
    = Done (map (fun _ => CB_SUCCESS) [10; 20; 30], Some b1)
    /\ pop_times (Some b1) (Some 0) (length [10; 20; 30])
       = Done (map (fun v => (CB_SUCCESS, Some v)) [10; 20; 30], Some b2,
               Some (List.last [10; 20; 30] 0))
    /\ count b2 = 0.
Proof.
  assert (HR : Ready (fresh 4)) by ready_by_computation.
  assert (Hc : count (fresh 4) = 0) by reflexivity.
  assert (Hn : Z.of_nat (length [10; 20; 30]) <= capacity (fresh 4))
    by (vm_compute; discriminate).
  split; [exact HR |]. split; [exact Hc |]. split; [exact Hn |].
  exact (fifo_order POLICY_REJECT_NEW (fresh 4) [10; 20; 30] 0 HR Hc Hn).
Defined.

(** C1 as stated fails on a buffer that already holds an element: with 5
    stored in a buffer of capacity 4, one push of 1 succeeds without any
    overwrite, and the one pop that follows hands back 5, not 1. *)
Lemma fifo_order_nonempty_start :
  Ready (filled POLICY_OVERWRITE_OLDEST 4 [5]) /\
  count (filled POLICY_OVERWRITE_OLDEST 4 [5]) + 1
    <= capacity (filled POLICY_OVERWRITE_OLDEST 4 [5]) /\
  (exists b1 b2,
     push_each POLICY_OVERWRITE_OLDEST
       (Some (filled POLICY_OVERWRITE_OLDEST 4 [5])) [1]
     = Done ([CB_SUCCESS], Some b1)
     /\ pop_times (Some b1) (Some 0) 1
        = Done ([(CB_SUCCESS, Some 5)], Some b2, Some 5)) /\
  ~ (exists b1 b2 last,
       push_each POLICY_OVERWRITE_OLDEST
         (Some (filled POLICY_OVERWRITE_OLDEST 4 [5])) [1]
       = Done ([CB_SUCCESS], Some b1)
       /\ pop_times (Some b1) (Some 0) 1
          = Done ([(CB_SUCCESS, Some 1)], Some b2, last)).
Proof.
  split; [ready_by_computation |].
  split; [vm_compute; discriminate |].
  split.
  - eexists _, _. split; [vm_compute; reflexivity |]. vm_compute. reflexivity.
  - intros (b1 & b2 & last & Hpush & Hpop).
    vm_compute in Hpush. injection Hpush as <-.
    vm_compute in Hpop. discriminate.
Qed.

(** C2, amended.  On a Ready buffer with [count = capacity], a push of
    [v] under [POLICY_OVERWRITE_OLDEST] succeeds, in the main file and in
    the teaching file alike: [readIndex] becomes
    [(readIndex + 1) & mask], [count] stays [capacity], [v] is written at
    the old [writeIndex], [writeIndex] becomes [(writeIndex + 1) & mask],
    and the next pop succeeds; when [capacity >= 2] that pop hands back
    the element that was second-oldest before the push, and when
    [capacity = 1] it hands back [v] itself. *)
Theorem overwrite_oldest b v old :
  Ready b -> count b = capacity b ->
  exists b',
    cb_push POLICY_OVERWRITE_OLDEST (Some b) v = Done (CB_SUCCESS, Some b')
    /\ Mini.cb_push POLICY_OVERWRITE_OLDEST (Some b) v
       = Done (Mini.CB_SUCCESS, Some b')
    /\ readIndex b' = Z.land (readIndex b + 1) (indexMask b)
    /\ count b' = capacity b
    /\ capacity b' = capacity b
    /\ pBuffer b' = (fun l => <[Z.to_nat (writeIndex b) := v]> l) <$> pBuffer b
    /\ load (pBuffer b') (writeIndex b) = Done v
    /\ writeIndex b' = Z.land (writeIndex b + 1) (indexMask b)
    /\ exists x b'',
         cb_pop (Some b') (Some old) = Done (CB_SUCCESS, Some b'', Some x)
         /\ (2 <= capacity b -> contents b !! 1%nat = Some x)
         /\ (capacity b = 1 -> x = v).
Proof.
  intros HR Hfull.
  destruct (push_overwrite_spec b v HR Hfull)
    as (b' & Hpush & HR' & Hcont & Hcnt & Hcap & _ & Hr & Hw & Hbuf).
  pose proof (ready_cap_pos b HR) as Hpos.
  exists b'. split; [assumption |].
  split; [exact Hpush |].
  split; [rewrite Hr; symmetry; apply (ready_wrap b HR) |].
  split; [assumption |]. split; [assumption |]. split; [assumption |].
  split.
  { destruct (ready_slots b HR) as (l & Hl & Hlen).
    pose proof (ready_write_range b HR) as Hwr.
    rewrite Hbuf, Hl. cbn. unfold load.
    destruct (Z.ltb_spec (writeIndex b) 0); [lia |].
    rewrite list_lookup_insert_eq by lia. reflexivity. }
  split; [rewrite Hw; symmetry; apply (ready_wrap b HR) |].
  destruct (pop_spec b' old HR' ltac:(lia))
    as (x & b'' & Hpop & _ & Hcont' & _).
  exists x, b''. split; [assumption |].
  pose proof (contents_length b HR) as Hlen. rewrite Hfull in Hlen.
  rewrite Hcont in Hcont'.
  destruct (contents b) as [|e0 [|e1 rest]]; cbn in Hlen, Hcont'.
  - lia.
  - injection Hcont' as <- _. split; [lia | reflexivity].
  - injection Hcont' as <- _. split; [reflexivity | lia].
Qed.

Lemma overwrite_oldest_witness :
  Ready (filled POLICY_OVERWRITE_OLDEST 4 [1; 2; 3; 4]) /\
  count (filled POLICY_OVERWRITE_OLDEST 4 [1; 2; 3; 4])
  = capacity (filled POLICY_OVERWRITE_OLDEST 4 [1; 2; 3; 4]) /\
  exists b',
    cb_push POLICY_OVERWRITE_OLDEST
      (Some (filled POLICY_OVERWRITE_OLDEST 4 [1; 2; 3; 4])) 5
    = Done (CB_SUCCESS, Some b')
    /\ exists x b'',
         cb_pop (Some b') (Some 0) = Done (CB_SUCCESS, Some b'', Some x)
         /\ x = 2.
Proof.
  assert (HR : Ready (filled POLICY_OVERWRITE_OLDEST 4 [1; 2; 3; 4]))
    by ready_by_computation.
  assert (Hfull : count (filled POLICY_OVERWRITE_OLDEST 4 [1; 2; 3; 4])
                  = capacity (filled POLICY_OVERWRITE_OLDEST 4 [1; 2; 3; 4]))
    by reflexivity.
  split; [exact HR |]. split; [exact Hfull |].
  destruct (overwrite_oldest _ 5 0 HR Hfull)
    as (b' & Hpush & _ & _ & _ & _ & _ & _ & _ & x & b'' & Hpop & Hsecond & _).
  exists b'. split; [exact Hpush |]. exists x, b''. split; [exact Hpop |].
  assert (H2 : contents (filled POLICY_OVERWRITE_OLDEST 4 [1; 2; 3; 4]) !! 1%nat
               = Some x) by (apply Hsecond; vm_compute; discriminate).
  vm_compute in H2. congruence.
Defined.

(** C2 as stated fails for capacity 1: the full buffer holds the single
    element 7, so it has no second-oldest element; the push of 9 succeeds
    and the next pop hands back 9, a value that was not in the buffer
    before the push. *)
Lemma overwrite_oldest_capacity_one :
  Ready (filled POLICY_OVERWRITE_OLDEST 1 [7]) /\
  count (filled POLICY_OVERWRITE_OLDEST 1 [7])
  = capacity (filled POLICY_OVERWRITE_OLDEST 1 [7]) /\
  contents (filled POLICY_OVERWRITE_OLDEST 1 [7]) = [7] /\
  (exists b' b'',
     cb_push POLICY_OVERWRITE_OLDEST
       (Some (filled POLICY_OVERWRITE_OLDEST 1 [7])) 9
     = Done (CB_SUCCESS, Some b')
     /\ cb_pop (Some b') (Some 0) = Done (CB_SUCCESS, Some b'', Some 9)) /\
  ~ (exists b' b'' e,
       cb_push POLICY_OVERWRITE_OLDEST
         (Some (filled POLICY_OVERWRITE_OLDEST 1 [7])) 9
       = Done (CB_SUCCESS, Some b')
       /\ contents (filled POLICY_OVERWRITE_OLDEST 1 [7]) !! 1%nat = Some e
       /\ cb_pop (Some b') (Some 0) = Done (CB_SUCCESS, Some b'', Some e)).
Proof.
  split; [ready_by_computation |].
  split; [reflexivity |]. split; [reflexivity |]. split.
  - eexists _, _. split; [vm_compute; reflexivity |]. vm_compute. reflexivity.
  - intros (b' & b'' & e & _ & He & _). vm_compute in He. discriminate.
Qed.

(** C3.  On an initialized buffer with [count = capacity], a push under
    [POLICY_REJECT_NEW], in the main file and in the teaching file alike,
    returns [CB_ERROR_FULL] and the buffer after the
    call is the buffer before it: the count, both indices and every
    storage slot are untouched. *)
Theorem push_full_reject b v :
  isInitialized b = true -> count b = capacity b ->
  exists b',
    cb_push POLICY_REJECT_NEW (Some b) v = Done (CB_ERROR_FULL, Some b')
    /\ Mini.cb_push POLICY_REJECT_NEW (Some b) v
       = Done (Mini.CB_ERROR_FULL, Some b')
    /\ b' = b
    /\ count b' = capacity b
    /\ writeIndex b' = writeIndex b
    /\ readIndex b' = readIndex b
    /\ pBuffer b' = pBuffer b.
Proof.
  intros Hi Hfull. exists b.
  pose proof (cb_push_reject b v Hi Hfull) as Hpush.
  split; [exact Hpush |]. split; [exact Hpush |]. repeat split; auto.
Qed.

Lemma push_full_reject_witness :
  isInitialized (filled POLICY_REJECT_NEW 2 [1; 2]) = true /\
  count (filled POLICY_REJECT_NEW 2 [1; 2])
  = capacity (filled POLICY_REJECT_NEW 2 [1; 2]) /\
  exists b',
    cb_push POLICY_REJECT_NEW (Some (filled POLICY_REJECT_NEW 2 [1; 2])) 3
    = Done (CB_ERROR_FULL, Some b')
    /\ b' = filled POLICY_REJECT_NEW 2 [1; 2].
Proof.
  split; [reflexivity |]. split; [reflexivity |].
  destruct (push_full_reject (filled POLICY_REJECT_NEW 2 [1; 2]) 3
              eq_refl eq_refl) as (b' & Hpush & _ & Hsame & _).
  exists b'. split; [exact Hpush | exact Hsame].
Defined.

(** C4.  On an initialized buffer with [count = 0], a pop into a valid
    output location returns [CB_ERROR_EMPTY]; the buffer after the call is
    the buffer before it (indices, count and storage), and the output
    location keeps the value it had. *)
Theorem pop_empty b old :
  isInitialized b = true -> count b = 0 ->
  exists b' out,
    cb_pop (Some b) (Some old) = Done (CB_ERROR_EMPTY, Some b', out)
    /\ b' = b
    /\ readIndex b' = readIndex b
    /\ writeIndex b' = writeIndex b
    /\ count b' = count b
    /\ pBuffer b' = pBuffer b
    /\ out = Some old.
Proof.
  intros Hi Hempty. exists b, (Some old).
  rewrite (cb_pop_none b old Hi Hempty). repeat split; auto.
Qed.

Lemma pop_empty_witness :
  isInitialized (fresh 8) = true /\ count (fresh 8) = 0 /\
  exists b' out,
    cb_pop (Some (fresh 8)) (Some 77) = Done (CB_ERROR_EMPTY, Some b', out)
    /\ b' = fresh 8 /\ out = Some 77.
Proof.
  split; [reflexivity |]. split; [reflexivity |].
  destruct (pop_empty (fresh 8) 77 eq_refl eq_refl)
    as (b' & out & Hpop & Hsame & _ & _ & _ & _ & Hout).
  exists b', out. split; [exact Hpop |]. split; [exact Hsame | exact Hout].
Defined.

(** C5, amended.  For a [uint32_t] size, [cb_init] succeeds exactly when
    the size is a non-zero power of two, that is [size <> 0] and
    [size & (size - 1) = 0] as decided by [isPowerOfTwo], and the storage
    allocation succeeds.  On success the mask is [size - 1], both indices
    and the count are 0, and the buffer is marked initialized over [size]
    zeroed slots.  For size 0 or a size that is not a power of two it
    returns [CB_ERROR_INVALID_SIZE], leaves the structure as it was and
    makes no allocator call. *)
Theorem cb_init_outcome b0 size alloc_ok :
  is_u32 size ->
  exists r cb' ev,
    cb_init (Some b0) size alloc_ok = (r, cb', ev)
    /\ (isPowerOfTwo size = true <-> size <> 0 /\ Z.land size (size - 1) = 0)
    /\ (isPowerOfTwo size = true <-> exists k, 0 <= k < 32 /\ size = 2 ^ k)
    /\ (r = CB_SUCCESS <-> isPowerOfTwo size = true /\ alloc_ok = true)
    /\ (r = CB_SUCCESS ->
        exists b,
          cb' = Some b /\ isInitialized b = true /\ capacity b = size
          /\ indexMask b = size - 1 /\ writeIndex b = 0 /\ readIndex b = 0
          /\ count b = 0
          /\ pBuffer b = Some (replicate (Z.to_nat size) 0)
          /\ ev = [EvMalloc (sizeof_SensorData_t * size)])
    /\ (isPowerOfTwo size = false ->
        r = CB_ERROR_INVALID_SIZE /\ cb' = Some b0 /\ ev = []).
Proof.
  intros Hu.
  assert (Hbits : isPowerOfTwo size = true
                  <-> size <> 0 /\ Z.land size (size - 1) = 0).
  { unfold isPowerOfTwo. rewrite andb_true_iff, negb_true_iff.
    rewrite Z.eqb_neq, Z.eqb_eq. split; intros [Hnz Hl]; split; auto.
    - rewrite u32_small in Hl by (unfold is_u32 in *; lia). assumption.
    - rewrite u32_small by (unfold is_u32 in *; lia). assumption. }
  destruct (cb_init (Some b0) size alloc_ok) as [[r cb'] ev] eqn:Hinit.
  exists r, cb', ev. split; [reflexivity |]. split; [assumption |].
  split; [now apply isPowerOfTwo_iff |].
  unfold cb_init in Hinit.
  destruct (isPowerOfTwo size) eqn:Hp.
  - destruct (Z.eqb_spec size 0) as [Hz|Hnz].
    { rewrite Hz in Hp. discriminate Hp. }
    cbn in Hinit. destruct alloc_ok; injection Hinit as <- <- <-.
    + split; [split; auto |]. split; [| discriminate].
      intros _. eexists. split; [reflexivity |]. fields.
      repeat split. apply u32_small. unfold is_u32 in *. lia.
    + split; [split; [discriminate | intros [_ ?]; discriminate] |].
      split; discriminate.
  - rewrite orb_true_r in Hinit. injection Hinit as <- <- <-.
    split; [split; [discriminate | intros [? _]; discriminate] |].
    split; [discriminate | auto].
Qed.

Lemma cb_init_outcome_witness :
  is_u32 8 /\
  exists r cb' ev,
    cb_init (Some blank) 8 true = (r, cb', ev)
    /\ r = CB_SUCCESS /\ cb' = Some (fresh 8).
Proof.
  assert (Hu : is_u32 8) by (vm_compute; split; [discriminate | reflexivity]).
  split; [exact Hu |].
  destruct (cb_init_outcome blank 8 true Hu)
    as (r & cb' & ev & Hinit & _ & _ & Hok & _).
  exists r, cb', ev. split; [exact Hinit |].
  vm_compute in Hinit. injection Hinit as <- <- _.
  split; reflexivity.
Defined.

(** C5 as stated fails when the allocator has no memory: 8 is a non-zero
    power of two, yet [cb_init] does not succeed; it returns
    [CB_ERROR_NULL_POINTER] after one [malloc] call and leaves the buffer
    uninitialized. *)
Lemma cb_init_allocation_failure :
  isPowerOfTwo 8 = true /\
  exists b,
    cb_init (Some blank) 8 false
    = (CB_ERROR_NULL_POINTER, Some b, [EvMalloc 32])
    /\ isInitialized b = false /\ pBuffer b = None
    /\ CB_ERROR_NULL_POINTER <> CB_SUCCESS.
Proof.
  split; [reflexivity |]. eexists. split; [vm_compute; reflexivity |].
  repeat split. discriminate.
Qed.

(** C6, amended.  In every buffer reachable from a successful [cb_init]
    through calls of the interface, [writeIndex] and [readIndex] lie in
    [[0, capacity)]; every call on it returns, and it moves the indices as
    follows: [cb_push] and [cb_pop] leave an index or replace it by
    [(index + 1) & mask], [cb_clear] sets both to 0, and [cb_peek] and the
    queries leave both. *)
Theorem index_discipline policy b :
  reachable policy b ->
  0 <= writeIndex b < capacity b /\
  0 <= readIndex b < capacity b /\
  forall o pData,
    exists r b' pData',
      call policy o (Some b) pData = Done (r, Some b', pData')
      /\ index_move o b b'.
Proof.
  intros Hreach. pose proof (reachable_Ready policy b Hreach) as HR.
  split; [apply (ready_write_range b HR) |].
  split; [apply (ready_read b HR) |].
  intros o pData.
  destruct (call_ready policy o b pData HR) as (r & b' & p' & Hcall & _ & Hmv).
  eauto.
Qed.

Lemma fresh_reachable policy size :
  is_u32 size -> isPowerOfTwo size = true -> reachable policy (fresh size).
Proof.
  intros Hu Hp.
  apply (reach_init policy blank size true (fresh size)
           [EvMalloc (sizeof_SensorData_t * size)] Hu).
  unfold fresh, cb_init. rewrite Hp.
  destruct (Z.eqb_spec size 0) as [->|_]; [discriminate Hp | reflexivity].
Qed.

Lemma index_discipline_witness :
  reachable POLICY_OVERWRITE_OLDEST (fresh 8) /\
  0 <= writeIndex (fresh 8) < capacity (fresh 8) /\
  0 <= readIndex (fresh 8) < capacity (fresh 8) /\
  exists r b' pData',
    call POLICY_OVERWRITE_OLDEST (OpPush 10) (Some (fresh 8)) None
    = Done (r, Some b', pData')
    /\ index_move (OpPush 10) (fresh 8) b'.
Proof.
  assert (Hreach : reachable POLICY_OVERWRITE_OLDEST (fresh 8)).
  { apply fresh_reachable; [| reflexivity].
    vm_compute. split; [discriminate | reflexivity]. }
  split; [exact Hreach |].
  destruct (index_discipline POLICY_OVERWRITE_OLDEST (fresh 8) Hreach)
    as (Hw & Hr & Hcalls).
  split; [exact Hw |]. split; [exact Hr |].
  exact (Hcalls (OpPush 10) None).
Defined.

(** C6 as stated fails for [cb_clear]: after [cb_init] with size 8 and
    two pushes [writeIndex] is 2, and [cb_clear] changes it to 0, which is
    neither 2 nor [(2 + 1) & 7 = 3]. *)
Lemma clear_is_not_a_step :
  reachable POLICY_OVERWRITE_OLDEST (filled POLICY_OVERWRITE_OLDEST 8 [1; 2]) /\
  writeIndex (filled POLICY_OVERWRITE_OLDEST 8 [1; 2]) = 2 /\
  indexMask (filled POLICY_OVERWRITE_OLDEST 8 [1; 2]) = 7 /\
  exists b',
    call POLICY_OVERWRITE_OLDEST OpClear
      (Some (filled POLICY_OVERWRITE_OLDEST 8 [1; 2])) None
    = Done (RetCode CB_SUCCESS, Some b', None)
    /\ writeIndex b' = 0
    /\ ~ stepped (indexMask (filled POLICY_OVERWRITE_OLDEST 8 [1; 2]))
                 (writeIndex (filled POLICY_OVERWRITE_OLDEST 8 [1; 2]))
                 (writeIndex b').
Proof.
  split.
  { apply (reach_call _ (filled POLICY_OVERWRITE_OLDEST 8 [1]) (OpPush 2)
             None (RetCode CB_SUCCESS) _ None); [| vm_compute; reflexivity].
    apply (reach_call _ (fresh 8) (OpPush 1)
             None (RetCode CB_SUCCESS) _ None); [| vm_compute; reflexivity].
    apply fresh_reachable; [| reflexivity].
    vm_compute. split; [discriminate | reflexivity]. }
  split; [reflexivity |]. split; [reflexivity |].
  eexists. split; [vm_compute; reflexivity |].
  split; [reflexivity |].
  vm_compute. intros [H | H]; discriminate H.
Qed.

(** C7, amended.  On a buffer with [isInitialized = false] no call
    changes the buffer or writes the output location.  [cb_push],
    [cb_pop], [cb_peek] and [cb_clear] fail with [CB_ERROR_NULL_POINTER],
    the one code the program has for a buffer that is missing or not
    initialized.  The queries report no error: [cb_isEmpty] answers
    [true], [cb_isFull] answers [false], [cb_getCount] and
    [cb_getFreeSpace] answer 0. *)
Theorem not_initialized_calls policy o b pData :
  isInitialized b = false ->
  call policy o (Some b) pData = Done (not_ready_answer o, Some b, pData).
Proof.
  intros Hi.
  destruct o; cbn [call not_ready_answer];
    unfold cb_push, cb_pop, cb_peek, cb_clear, cb_isEmpty, cb_isFull,
      cb_getCount, cb_getFreeSpace;
    rewrite Hi; try reflexivity.
  destruct pData; reflexivity.
Qed.

Lemma not_initialized_calls_witness :
  isInitialized (closed 8) = false /\
  call POLICY_OVERWRITE_OLDEST (OpPush 5) (Some (closed 8)) (Some 1)
  = Done (RetCode CB_ERROR_NULL_POINTER, Some (closed 8), Some 1).
Proof.
  split; [reflexivity |].
  exact (not_initialized_calls POLICY_OVERWRITE_OLDEST (OpPush 5) (closed 8)
           (Some 1) eq_refl).
Defined.

(** C7 as stated fails for the queries: on a closed buffer [cb_isEmpty]
    returns the boolean [true], not an error code, and that is the very
    answer it gives for a Ready buffer without elements; likewise
    [cb_getCount] answers 0 on both. *)
Lemma queries_report_no_error :
  isInitialized (closed 8) = false /\
  call POLICY_OVERWRITE_OLDEST OpIsEmpty (Some (closed 8)) None
  = Done (RetBool true, Some (closed 8), None) /\
  call POLICY_OVERWRITE_OLDEST OpIsEmpty (Some (closed 8)) None
  <> Done (RetCode CB_ERROR_NULL_POINTER, Some (closed 8), None) /\
  cb_isEmpty (Some (closed 8)) = cb_isEmpty (Some (fresh 8)) /\
  cb_getCount (Some (closed 8)) = cb_getCount (Some (fresh 8)).
Proof.
  repeat split; try reflexivity. vm_compute. discriminate.
Qed.

(** C8.  On an initialized buffer [cb_clear] succeeds and sets
    [writeIndex], [readIndex] and [count] to 0; the storage block and
    every slot in it, the capacity and the mask are what they were. *)
Theorem clear_keeps_storage b :
  isInitialized b = true ->
  exists b',
    cb_clear (Some b) = (CB_SUCCESS, Some b')
    /\ writeIndex b' = 0 /\ readIndex b' = 0 /\ count b' = 0
    /\ pBuffer b' = pBuffer b
    /\ (forall i, load (pBuffer b') i = load (pBuffer b) i)
    /\ capacity b' = capacity b
    /\ indexMask b' = indexMask b
    /\ isInitialized b' = true.
Proof.
  intros Hi. unfold cb_clear. rewrite Hi. cbn [negb].
  eexists. split; [reflexivity |]. fields. repeat split. assumption.
Qed.

Lemma clear_keeps_storage_witness :
  isInitialized (filled POLICY_OVERWRITE_OLDEST 4 [1; 2; 3]) = true /\
  exists b',
    cb_clear (Some (filled POLICY_OVERWRITE_OLDEST 4 [1; 2; 3]))
    = (CB_SUCCESS, Some b')
    /\ count b' = 0
    /\ pBuffer b' = Some [1; 2; 3; 0].
Proof.
  split; [reflexivity |].
  destruct (clear_keeps_storage (filled POLICY_OVERWRITE_OLDEST 4 [1; 2; 3])
              eq_refl) as (b' & Hclear & _ & _ & Hcount & Hbuf & _).
  exists b'. split; [exact Hclear |]. split; [exact Hcount |].
  rewrite Hbuf. reflexivity.
Defined.

(** C9.  For every buffer, [cb_deinit] succeeds and leaves a closed
    buffer: not initialized, no storage, capacity, indices and count 0.
    A second [cb_deinit] right after it succeeds as well, makes no
    allocator call, so nothing is released again, and leaves that closed
    buffer exactly as it was. *)
Theorem deinit_idempotent b :
  exists b1 ev1,
    cb_deinit (Some b) = (CB_SUCCESS, Some b1, ev1)
    /\ cb_deinit (Some b1) = (CB_SUCCESS, Some b1, [])
    /\ isInitialized b1 = false /\ pBuffer b1 = None
    /\ capacity b1 = 0 /\ writeIndex b1 = 0 /\ readIndex b1 = 0
    /\ count b1 = 0
    /\ ev1 = match pBuffer b with Some _ => [EvFree] | None => [] end.
Proof.
  unfold cb_deinit. destruct b as [[l|] w r c cap m i]; cbn;
    eexists _, _; (split; [reflexivity |]); cbn; repeat split.
Qed.

(** C10.  For every buffer reference, value and output location, on
    either platform and whatever the interrupt flag was, [cb_push_safe]
    gives the result code and the buffer of [cb_push], and [cb_pop_safe]
    gives the result code, the buffer and the output of [cb_pop]; the
    critical section only touches the interrupt flag. *)
Theorem safe_wrappers_refine plat policy irq cb v pData :
  without_irq (cb_push_safe plat policy irq cb v) = cb_push policy cb v /\
  without_irq (cb_pop_safe plat irq cb pData) = cb_pop cb pData.
Proof.
  unfold without_irq, cb_push_safe, cb_pop_safe. split.
  - destruct (cb_push policy cb v) as [[r cb']|]; reflexivity.
  - destruct (cb_pop cb pData) as [[[r cb'] out]|]; reflexivity.
Qed.

(** * Further properties of the code *)

(** ** Invariant and queries *)

(** X1.  Every buffer reachable from a successful [cb_init] through
    calls of the interface is initialized over a storage block of
    exactly [capacity] slots, its capacity is a power of two below
    [2^32] with [indexMask = capacity - 1], its count lies in
    [[0, capacity]], and [writeIndex] is [readIndex] moved on by [count]
    slots under the mask. *)
Theorem reachable_invariant policy b :
  reachable policy b ->
  isInitialized b = true /\
  (exists k, 0 <= k < 32 /\ capacity b = 2 ^ k) /\
  indexMask b = capacity b - 1 /\
  (exists l, pBuffer b = Some l /\ Z.of_nat (length l) = capacity b) /\
  0 <= count b <= capacity b /\
  writeIndex b = wrapIndex b (readIndex b + count b).
Proof.
  intros Hreach. pose proof (reachable_Ready policy b Hreach) as HR.
  split; [apply (ready_init b HR) |].
  split; [apply power_is_pow2; [apply (ready_cap b HR) | apply (ready_pow2 b HR)] |].
  split; [apply (ready_mask b HR) |].
  split; [apply (ready_slots b HR) |].
  split; [apply (ready_count b HR) |].
  rewrite (ready_wrap b HR). apply (ready_write b HR).
Qed.

Lemma reachable_invariant_witness :
  reachable POLICY_REJECT_NEW (fresh 4) /\
  0 <= count (fresh 4) <= capacity (fresh 4) /\
  writeIndex (fresh 4)
  = wrapIndex (fresh 4) (readIndex (fresh 4) + count (fresh 4)).
Proof.
  assert (Hreach : reachable POLICY_REJECT_NEW (fresh 4)).
  { apply fresh_reachable; [| reflexivity].
    vm_compute. split; [discriminate | reflexivity]. }
  split; [exact Hreach |].
  destruct (reachable_invariant POLICY_REJECT_NEW (fresh 4) Hreach)
    as (_ & _ & _ & _ & Hcount & Hlink).
  split; [exact Hcount | exact Hlink].
Defined.

(** X2.  For a capacity in [[1, 2^32)], masking with [capacity - 1] as
    [wrapIndex] does is reduction modulo the capacity for every index
    exactly when [isPowerOfTwo] accepts the capacity. *)
Theorem mask_is_modulo_iff_power b :
  0 < capacity b < U32_MOD -> indexMask b = u32 (capacity b - 1) ->
  (forall index, wrapIndex b index = index mod capacity b)
  <-> isPowerOfTwo (capacity b) = true.
Proof.
  intros Hcap Hmask.
  assert (Hm : indexMask b = capacity b - 1).
  { rewrite Hmask. apply u32_small. unfold is_u32. lia. }
  split.
  - intros Hall. specialize (Hall (capacity b)).
    unfold wrapIndex in Hall. rewrite Hm, Z.mod_same in Hall by lia.
    unfold isPowerOfTwo. apply andb_true_intro. split.
    + apply negb_true_iff, Z.eqb_neq. lia.
    + apply Z.eqb_eq. rewrite u32_small by (unfold is_u32; lia). assumption.
  - intros Hp index. unfold wrapIndex. rewrite Hm.
    apply land_mask_mod; [unfold is_u32; lia | assumption].
Qed.

Lemma mask_is_modulo_iff_power_witness :
  0 < capacity (fresh 8) < U32_MOD /\
  indexMask (fresh 8) = u32 (capacity (fresh 8) - 1) /\
  wrapIndex (fresh 8) 10 = 10 mod capacity (fresh 8).
Proof.
  assert (Hcap : 0 < capacity (fresh 8) < U32_MOD)
    by (vm_compute; split; reflexivity).
  assert (Hmask : indexMask (fresh 8) = u32 (capacity (fresh 8) - 1))
    by reflexivity.
  split; [exact Hcap |]. split; [exact Hmask |].
  apply (proj2 (mask_is_modulo_iff_power (fresh 8) Hcap Hmask)).
  reflexivity.
Defined.

(** X3.  On a Ready buffer the queries agree with the listing of
    [cb_printContents]: the listing succeeds and has [cb_getCount]
    entries, [cb_getCount] and [cb_getFreeSpace] add up to the capacity,
    [cb_isEmpty] holds exactly when the listing is empty, [cb_isFull]
    holds exactly when no space is free, and the two never hold
    together. *)
Theorem queries_match_listing b :
  Ready b ->
  exists xs,
    cb_printContents (Some b) = Done xs
    /\ Z.of_nat (length xs) = cb_getCount (Some b)
    /\ cb_getCount (Some b) + cb_getFreeSpace (Some b) = capacity b
    /\ (cb_isEmpty (Some b) = true <-> xs = [])
    /\ (cb_isFull (Some b) = true <-> cb_getFreeSpace (Some b) = 0)
    /\ ~ (cb_isEmpty (Some b) = true /\ cb_isFull (Some b) = true).
Proof.
  intros HR. exists (contents b).
  pose proof (contents_length b HR) as Hlen.
  pose proof (ready_count b HR) as Hcnt.
  pose proof (ready_cap_pos b HR) as Hpos.
  pose proof (ready_cap b HR) as Hu. unfold is_u32 in Hu.
  split; [apply (cb_printContents_contents b HR) |].
  unfold cb_getCount, cb_getFreeSpace, cb_isEmpty, cb_isFull.
  rewrite (ready_init b HR). cbn [negb].
  rewrite (u32_small (capacity b - count b)) by (unfold is_u32; lia).
  split; [assumption |]. split; [lia |]. split; [| split].
  - rewrite Z.eqb_eq. split.
    + intros Hz. apply nil_length_inv. lia.
    + intros Hnil. rewrite Hnil in Hlen. cbn in Hlen. lia.
  - rewrite Z.eqb_eq. lia.
  - rewrite !Z.eqb_eq. lia.
Qed.

Lemma queries_match_listing_witness :
  Ready (filled POLICY_OVERWRITE_OLDEST 4 [7; 8]) /\
  exists xs,
    cb_printContents (Some (filled POLICY_OVERWRITE_OLDEST 4 [7; 8])) = Done xs
    /\ Z.of_nat (length xs)
       = cb_getCount (Some (filled POLICY_OVERWRITE_OLDEST 4 [7; 8])).
Proof.
  assert (HR : Ready (filled POLICY_OVERWRITE_OLDEST 4 [7; 8]))
    by ready_by_computation.
  split; [exact HR |].
  destruct (queries_match_listing _ HR) as (xs & Hlist & Hlen & _).
  exists xs. split; [exact Hlist | exact Hlen].
Defined.

(** ** Reading *)

Lemma load_head b :
  Ready b -> 0 < count b ->
  exists x rest,
    load (pBuffer b) (readIndex b) = Done x /\ contents b = x :: rest.
Proof.
  intros HR Hc.
  destruct (cb_pop_some b 0 HR Hc) as (x & Hload & Hpop).
  destruct (pop_spec b 0 HR Hc) as (y & b' & Hpop' & _ & Hcont & _).
  rewrite Hpop in Hpop'. injection Hpop' as _ Hxy.
  exists x, (contents b'). split; [assumption | congruence].
Qed.

(** X4.  On a Ready buffer [cb_peek] never changes the buffer.  When the
    buffer is empty it returns [CB_ERROR_EMPTY] and leaves the output
    location; otherwise it succeeds with the first value of the listing,
    which is the value the next [cb_pop] hands out. *)
Theorem peek_shows_next_pop b old :
  Ready b ->
  (count b = 0 ->
   cb_peek (Some b) (Some old) = Done (CB_ERROR_EMPTY, Some b, Some old)) /\
  (0 < count b ->
   exists x b',
     cb_peek (Some b) (Some old) = Done (CB_SUCCESS, Some b, Some x)
     /\ cb_pop (Some b) (Some x) = Done (CB_SUCCESS, Some b', Some x)
     /\ head (contents b) = Some x
     /\ contents b' = tail (contents b)).
Proof.
  intros HR. pose proof (ready_init b HR) as Hi. split.
  - intros Hz. unfold cb_peek, cb_isEmpty. rewrite Hi, Hz. reflexivity.
  - intros Hc.
    destruct (load_head b HR Hc) as (x & rest & Hload & Hcont).
    destruct (pop_spec b x HR Hc) as (y & b' & Hpop & _ & Hcont' & _).
    assert (y = x) by congruence. subst y.
    exists x, b'. split; [| split; [assumption |]].
    + unfold cb_peek, cb_isEmpty. rewrite Hi. cbn [negb].
      destruct (Z.eqb_spec (count b) 0); [lia |].
      rewrite Hload. reflexivity.
    + rewrite Hcont'. split; reflexivity.
Qed.

Lemma peek_shows_next_pop_witness :
  Ready (filled POLICY_OVERWRITE_OLDEST 4 [7; 8]) /\
  0 < count (filled POLICY_OVERWRITE_OLDEST 4 [7; 8]) /\
  exists x b',
    cb_peek (Some (filled POLICY_OVERWRITE_OLDEST 4 [7; 8])) (Some 0)
    = Done (CB_SUCCESS, Some (filled POLICY_OVERWRITE_OLDEST 4 [7; 8]), Some x)
    /\ cb_pop (Some (filled POLICY_OVERWRITE_OLDEST 4 [7; 8])) (Some x)
       = Done (CB_SUCCESS, Some b', Some x).
Proof.
  assert (HR : Ready (filled POLICY_OVERWRITE_OLDEST 4 [7; 8]))
    by ready_by_computation.
  assert (Hc : 0 < count (filled POLICY_OVERWRITE_OLDEST 4 [7; 8]))
    by reflexivity.
  split; [exact HR |]. split; [exact Hc |].
  destruct (proj2 (peek_shows_next_pop _ 0 HR) Hc)
    as (x & b' & Hpeek & Hpop & _).
  exists x, b'. split; [exact Hpeek | exact Hpop].
Defined.

(** X5.  On a Ready buffer, [count] pops in a row all succeed and hand
    out the values of the listing of [cb_printContents] in its order;
    the buffer is then empty, and one more pop returns [CB_ERROR_EMPTY]
    and leaves in the output location the last value handed out. *)
Theorem drain_returns_listing b old :
  Ready b ->
  exists xs b',
    cb_printContents (Some b) = Done xs
    /\ pop_times (Some b) (Some old) (Z.to_nat (count b))
       = Done (map (fun x => (CB_SUCCESS, Some x)) xs, Some b',
               Some (List.last xs old))
    /\ cb_isEmpty (Some b') = true
    /\ cb_pop (Some b') (Some (List.last xs old))
       = Done (CB_ERROR_EMPTY, Some b', Some (List.last xs old)).
Proof.
  intros HR. pose proof (ready_count b HR) as Hcnt.
  pose proof (contents_length b HR) as Hlen.
  destruct (pop_times_spec (Z.to_nat (count b)) b old HR ltac:(lia))
    as (b' & Hpop & HR' & _ & Hcnt').
  assert (Hall : take (Z.to_nat (count b)) (contents b) = contents b).
  { apply take_ge. lia. }
  rewrite Hall in Hpop.
  exists (contents b), b'.
  split; [apply (cb_printContents_contents b HR) |].
  split; [assumption |].
  assert (Hz : count b' = 0) by lia.
  split.
  - unfold cb_isEmpty. rewrite (ready_init b' HR'), Hz. reflexivity.
  - apply cb_pop_none; [apply (ready_init b' HR') | assumption].
Qed.

Lemma drain_returns_listing_witness :
  Ready (filled POLICY_OVERWRITE_OLDEST 4 [7; 8; 9]) /\
  exists xs b',
    cb_printContents (Some (filled POLICY_OVERWRITE_OLDEST 4 [7; 8; 9]))
    = Done xs
    /\ pop_times (Some (filled POLICY_OVERWRITE_OLDEST 4 [7; 8; 9])) (Some 0)
         (Z.to_nat (count (filled POLICY_OVERWRITE_OLDEST 4 [7; 8; 9])))
       = Done (map (fun x => (CB_SUCCESS, Some x)) xs, Some b',
               Some (List.last xs 0)).
Proof.
  assert (HR : Ready (filled POLICY_OVERWRITE_OLDEST 4 [7; 8; 9]))
    by ready_by_computation.
  split; [exact HR |].
  destruct (drain_returns_listing _ 0 HR) as (xs & b' & Hlist & Hpop & _).
  exists xs, b'. split; [exact Hlist | exact Hpop].
Defined.

(** ** Writing past the capacity *)

Lemma push_each_overwrite vs :
  forall b,
    Ready b ->
    exists b',
      push_each POLICY_OVERWRITE_OLDEST (Some b) vs
      = Done (map (fun _ => CB_SUCCESS) vs, Some b')
      /\ Ready b'
      /\ capacity b' = capacity b
      /\ contents b'
         = drop (length (contents b ++ vs) - Z.to_nat (capacity b))
                (contents b ++ vs).
Proof.
  induction vs as [|v vs IH]; intros b HR;
    pose proof (contents_length b HR) as Hlen;
    pose proof (ready_count b HR) as Hcnt.
  - exists b. cbn [push_each map]. rewrite app_nil_r.
    replace (length (contents b) - Z.to_nat (capacity b))%nat with 0%nat by lia.
    auto.
  - cbn [push_each map].
    destruct (Z_lt_le_dec (count b) (capacity b)) as [Hlt|Hge].
    + destruct (push_room_spec POLICY_OVERWRITE_OLDEST b v HR Hlt)
        as (b1 & -> & HR1 & Hcont1 & _ & Hcap1 & _).
      destruct (IH b1 HR1) as (b' & Hrest & HR' & Hcap' & Hcont').
      cbn. rewrite Hrest. cbn. exists b'.
      split; [reflexivity |]. split; [assumption |].
      split; [congruence |].
      rewrite Hcont', Hcont1, Hcap1, <- app_assoc. reflexivity.
    + assert (Hfull : count b = capacity b) by lia.
      destruct (push_overwrite_spec b v HR Hfull)
        as (b1 & -> & HR1 & Hcont1 & _ & Hcap1 & _).
      destruct (IH b1 HR1) as (b' & Hrest & HR' & Hcap' & Hcont').
      cbn. rewrite Hrest. cbn. exists b'.
      split; [reflexivity |]. split; [assumption |].
      split; [congruence |].
      rewrite Hcont', Hcont1, Hcap1, <- app_assoc.
      pose proof (ready_cap_pos b HR) as Hpos.
      destruct (contents b) as [|e c]; cbn [length] in Hlen; [lia |].
      cbn [drop app]. rewrite drop_0.
      assert (Hn : (Z.to_nat (capacity b) <= length (c ++ v :: vs))%nat)
        by (rewrite length_app; cbn [length]; lia).
      cbn [length app].
      replace (S (length (c ++ v :: vs)) - Z.to_nat (capacity b))%nat
        with (S (length (c ++ v :: vs) - Z.to_nat (capacity b)))%nat by lia.
      reflexivity.
Qed.

(** X6.  Under [POLICY_OVERWRITE_OLDEST] every push of any sequence of
    values onto a Ready buffer succeeds, and afterwards the listing of
    [cb_printContents] is the old listing followed by the pushed values
    with all but the newest [capacity] of them dropped from the front. *)
Theorem overwrite_keeps_newest b vs :
  Ready b ->
  exists xs b',
    cb_printContents (Some b) = Done xs
    /\ push_each POLICY_OVERWRITE_OLDEST (Some b) vs
       = Done (map (fun _ => CB_SUCCESS) vs, Some b')
    /\ cb_printContents (Some b')
       = Done (drop (length (xs ++ vs) - Z.to_nat (capacity b)) (xs ++ vs)).
Proof.
  intros HR.
  destruct (push_each_overwrite vs b HR) as (b' & Hpush & HR' & _ & Hcont).
  exists (contents b), b'.
  split; [apply (cb_printContents_contents b HR) |].
  split; [assumption |].
  rewrite (cb_printContents_contents b' HR'), Hcont. reflexivity.
Qed.

Lemma overwrite_keeps_newest_witness :
  Ready (filled POLICY_OVERWRITE_OLDEST 2 [1]) /\
  exists b',
    push_each POLICY_OVERWRITE_OLDEST
      (Some (filled POLICY_OVERWRITE_OLDEST 2 [1])) [2; 3; 4]
    = Done ([CB_SUCCESS; CB_SUCCESS; CB_SUCCESS], Some b')
    /\ cb_printContents (Some b') = Done [3; 4].
Proof.
  assert (HR : Ready (filled POLICY_OVERWRITE_OLDEST 2 [1]))
    by ready_by_computation.
  split; [exact HR |].
  destruct (overwrite_keeps_newest _ [2; 3; 4] HR)
    as (xs & b' & Hlist & Hpush & Hafter).
  exists b'. split; [exact Hpush |].
  vm_compute in Hlist. injection Hlist as <-. exact Hafter.
Defined.

Lemma push_each_reject vs :
  forall b,
    Ready b ->
    exists b',
      push_each POLICY_REJECT_NEW (Some b) vs
      = Done (replicate
                (Nat.min (Z.to_nat (capacity b) - length (contents b))
                         (length vs)) CB_SUCCESS
              ++ replicate
                   (length vs - (Z.to_nat (capacity b) - length (contents b)))
                   CB_ERROR_FULL,
              Some b')
      /\ Ready b'
      /\ capacity b' = capacity b
      /\ contents b' = take (Z.to_nat (capacity b)) (contents b ++ vs).
Proof.
  induction vs as [|v vs IH]; intros b HR;
    pose proof (contents_length b HR) as Hlen;
    pose proof (ready_count b HR) as Hcnt.
  - exists b. cbn [push_each length]. rewrite Nat.min_0_r.
    cbn [replicate Nat.sub app]. rewrite (app_nil_r (contents b)).
    rewrite take_ge by lia. auto.
  - cbn [push_each length].
    destruct (Z_lt_le_dec (count b) (capacity b)) as [Hlt|Hge].
    + destruct (push_room_spec POLICY_REJECT_NEW b v HR Hlt)
        as (b1 & -> & HR1 & Hcont1 & _ & Hcap1 & _).
      destruct (IH b1 HR1) as (b' & Hrest & HR' & Hcap' & Hcont').
      cbn. rewrite Hrest. cbn. exists b'.
      rewrite Hcont1, Hcap1, length_app in *. cbn [length] in *.
      split; [| split; [assumption | split; [congruence |]]].
      * replace (Z.to_nat (capacity b) - length (contents b))%nat
          with (S (Z.to_nat (capacity b) - (length (contents b) + 1)))%nat
          by lia.
        reflexivity.
      * rewrite Hcont', <- app_assoc. reflexivity.
    + assert (Hfull : count b = capacity b) by lia.
      rewrite (cb_push_reject b v (ready_init b HR) Hfull).
      destruct (IH b HR) as (b' & Hrest & HR' & Hcap' & Hcont').
      cbn. rewrite Hrest. cbn. exists b'.
      replace (Z.to_nat (capacity b) - length (contents b))%nat
        with 0%nat in * by lia.
      rewrite !Nat.sub_0_r in *.
      split; [reflexivity |]. split; [assumption |].
      split; [assumption |].
      rewrite Hcont', !take_app_le by lia. reflexivity.
Qed.

(** X7.  Under [POLICY_REJECT_NEW], pushing any sequence of values onto
    a Ready buffer succeeds for as many values as there is free space
    and returns [CB_ERROR_FULL] for every later one; afterwards the
    listing of [cb_printContents] is the first [capacity] values of the
    old listing followed by the pushed values, so nothing stored is
    lost. *)
Theorem reject_keeps_oldest b vs :
  Ready b ->
  exists xs b',
    cb_printContents (Some b) = Done xs
    /\ push_each POLICY_REJECT_NEW (Some b) vs
       = Done (replicate
                 (Nat.min (Z.to_nat (cb_getFreeSpace (Some b))) (length vs))
                 CB_SUCCESS
               ++ replicate
                    (length vs - Z.to_nat (cb_getFreeSpace (Some b)))
                    CB_ERROR_FULL,
               Some b')
    /\ cb_printContents (Some b')
       = Done (take (Z.to_nat (capacity b)) (xs ++ vs)).
Proof.
  intros HR.
  destruct (push_each_reject vs b HR) as (b' & Hpush & HR' & _ & Hcont).
  pose proof (contents_length b HR) as Hlen.
  pose proof (ready_count b HR) as Hcnt.
  pose proof (ready_cap b HR) as Hu. unfold is_u32 in Hu.
  exists (contents b), b'.
  split; [apply (cb_printContents_contents b HR) |].
  split.
  - unfold cb_getFreeSpace. rewrite (ready_init b HR). cbn [negb].
    rewrite u32_small by (unfold is_u32; lia).
    replace (Z.to_nat (capacity b - count b))
      with (Z.to_nat (capacity b) - length (contents b))%nat by lia.
    assumption.
  - rewrite (cb_printContents_contents b' HR'), Hcont. reflexivity.
Qed.

Lemma reject_keeps_oldest_witness :
  Ready (filled POLICY_REJECT_NEW 2 [1]) /\
  exists b',
    push_each POLICY_REJECT_NEW (Some (filled POLICY_REJECT_NEW 2 [1]))
      [2; 3; 4]
    = Done ([CB_SUCCESS; CB_ERROR_FULL; CB_ERROR_FULL], Some b')
    /\ cb_printContents (Some b') = Done [1; 2].
Proof.
  assert (HR : Ready (filled POLICY_REJECT_NEW 2 [1]))
    by ready_by_computation.
  split; [exact HR |].
  destruct (reject_keeps_oldest _ [2; 3; 4] HR)
    as (xs & b' & Hlist & Hpush & Hafter).
  exists b'. split; [exact Hpush |].
  vm_compute in Hlist. injection Hlist as <-. exact Hafter.
Defined.

(** ** Clearing *)

(** X8.  [cb_clear] on a Ready buffer succeeds and leaves a buffer whose
    listing is empty and whose free space is the whole capacity; values
    left in the storage are not seen again: after any pushes that fit the
    capacity the listing shows exactly the pushed values. *)
Theorem clear_hides_old_values policy b vs :
  Ready b ->
  exists b',
    cb_clear (Some b) = (CB_SUCCESS, Some b')
    /\ cb_printContents (Some b') = Done []
    /\ cb_getFreeSpace (Some b') = capacity b
    /\ (Z.of_nat (length vs) <= capacity b ->
        exists b'',
          push_each policy (Some b') vs
          = Done (map (fun _ => CB_SUCCESS) vs, Some b'')
          /\ cb_printContents (Some b'') = Done vs).
Proof.
  intros HR. pose proof (Ready_clear b HR) as HR'.
  pose proof (ready_init b HR) as Hi.
  pose proof (ready_cap b HR) as Hu. unfold is_u32 in Hu.
  eexists. split; [unfold cb_clear; rewrite Hi; reflexivity |]. fields.
  split; [unfold cb_printContents, cb_isEmpty; fields; rewrite Hi; reflexivity |].
  split.
  { unfold cb_getFreeSpace. fields. rewrite Hi. cbn [negb].
    rewrite Z.sub_0_r. apply u32_small. unfold is_u32. lia. }
  intros Hfit.
  destruct (push_each_room policy vs _ HR' ltac:(cbn; lia))
    as (b'' & Hpush & HR'' & Hcont & _).
  exists b''. split; [exact Hpush |].
  rewrite (cb_printContents_contents b'' HR''), Hcont.
  assert (Hnil : contents
            (mkCB (pBuffer b) 0 0 0 (capacity b) (indexMask b)
                  (isInitialized b)) = []).
  { unfold contents. cbn. destruct (pBuffer b); reflexivity. }
  rewrite Hnil. reflexivity.
Qed.

Lemma clear_hides_old_values_witness :
  Ready (filled POLICY_OVERWRITE_OLDEST 4 [1; 2; 3]) /\
  exists b',
    cb_clear (Some (filled POLICY_OVERWRITE_OLDEST 4 [1; 2; 3]))
    = (CB_SUCCESS, Some b')
    /\ cb_printContents (Some b') = Done []
    /\ exists b'',
         push_each POLICY_OVERWRITE_OLDEST (Some b') [9]
         = Done ([CB_SUCCESS], Some b'')
         /\ cb_printContents (Some b'') = Done [9].
Proof.
  assert (HR : Ready (filled POLICY_OVERWRITE_OLDEST 4 [1; 2; 3]))
    by ready_by_computation.
  split; [exact HR |].
  destruct (clear_hides_old_values POLICY_OVERWRITE_OLDEST _ [9] HR)
    as (b' & Hclear & Hlist & _ & Hpush).
  exists b'. split; [exact Hclear |]. split; [exact Hlist |].
  apply Hpush. vm_compute. discriminate.
Defined.

(** ** The buffer as a bounded queue *)

Lemma call_queue policy o b pData :
  Ready b ->
  exists r b' pData',
    call policy o (Some b) pData = Done (r, Some b', pData')
    /\ Ready b'
    /\ capacity b' = capacity b
    /\ queue_call policy (capacity b) (contents b) o pData
       = (r, contents b', pData').
Proof.
  intros HR. pose proof (ready_init b HR) as Hi.
  pose proof (ready_count b HR) as Hcnt.
  pose proof (contents_length b HR) as Hlen.
  pose proof (ready_cap b HR) as Hu. unfold is_u32 in Hu.
  destruct o as [v| | | | | | |]; cbn [call queue_call].
  - (* push *)
    rewrite Hlen.
    destruct (Z.ltb_spec (count b) (capacity b)) as [Hlt|Hge].
    + destruct (push_room_spec policy b v HR Hlt)
        as (b' & -> & HR' & Hcont & _ & Hcap & _).
      exists (RetCode CB_SUCCESS), b', pData. cbn. rewrite Hcont. auto.
    + assert (Hfull : count b = capacity b) by lia.
      destruct policy.
      * destruct (push_overwrite_spec b v HR Hfull)
          as (b' & -> & HR' & Hcont & _ & Hcap & _).
        exists (RetCode CB_SUCCESS), b', pData. cbn. rewrite Hcont. auto.
      * rewrite (cb_push_reject b v Hi Hfull).
        exists (RetCode CB_ERROR_FULL), b, pData. cbn. auto.
  - (* pop *)
    destruct pData as [old|].
    + destruct (Z.eq_dec (count b) 0) as [Hz|Hnz].
      * rewrite (cb_pop_none b old Hi Hz).
        assert (Hnil : contents b = []) by (apply nil_length_inv; lia).
        exists (RetCode CB_ERROR_EMPTY), b, (Some old). cbn.
        rewrite Hnil. auto.
      * destruct (pop_spec b old HR ltac:(lia))
          as (x & b' & -> & HR' & Hcont & _ & Hcap & _).
        exists (RetCode CB_SUCCESS), b', (Some x). cbn.
        rewrite Hcont. auto.
    + unfold cb_pop. rewrite Hi. cbn.
      exists (RetCode CB_ERROR_NULL_POINTER), b, None. auto.
  - (* peek *)
    destruct pData as [old|]; unfold cb_peek, cb_isEmpty.
    + rewrite Hi. cbn [negb].
      destruct (Z.eqb_spec (count b) 0) as [Hz|Hnz].
      * assert (Hnil : contents b = []) by (apply nil_length_inv; lia).
        exists (RetCode CB_ERROR_EMPTY), b, (Some old). cbn.
        rewrite Hnil. auto.
      * destruct (load_head b HR ltac:(lia)) as (x & rest & -> & Hcont).
        exists (RetCode CB_SUCCESS), b, (Some x). cbn.
        rewrite Hcont. auto.
    + exists (RetCode CB_ERROR_NULL_POINTER), b, None. cbn. auto.
  - (* clear *)
    unfold cb_clear. rewrite Hi. cbn [negb]. fields.
    eexists _, _, _. split; [reflexivity |].
    split; [apply (Ready_clear b HR) |]. split; [reflexivity |].
    unfold contents. fields. destruct (pBuffer b); reflexivity.
  - eexists _, b, _. split; [reflexivity |].
    unfold cb_isEmpty. rewrite Hi, Hlen. auto.
  - eexists _, b, _. split; [reflexivity |].
    unfold cb_isFull. rewrite Hi, Hlen. auto.
  - eexists _, b, _. split; [reflexivity |].
    unfold cb_getCount. rewrite Hi, Hlen. auto.
  - eexists _, b, _. split; [reflexivity |].
    unfold cb_getFreeSpace. rewrite Hi, Hlen. cbn [negb].
    rewrite u32_small by (unfold is_u32; lia). auto.
Qed.

(** X9.  Any sequence of calls on a Ready buffer runs to the end
    without touching memory out of bounds, and it answers exactly as a
    bounded first-in first-out queue of [capacity] places does that
    starts from the listing of the buffer: same results in the same
    order, same final listing, same final output location. *)
Theorem buffer_is_bounded_queue policy ops :
  forall b pData,
    Ready b ->
    exists xs rs b' pData' xs',
      cb_printContents (Some b) = Done xs
      /\ run policy ops (Some b) pData = Done (rs, Some b', pData')
      /\ cb_printContents (Some b') = Done xs'
      /\ queue_run policy (capacity b) xs ops pData = (rs, xs', pData').
Proof.
  intros b pData HR. exists (contents b).
  rewrite (cb_printContents_contents b HR).
  revert b pData HR.
  induction ops as [|o ops IH]; intros b pData HR.
  - exists [], b, pData, (contents b). cbn [run queue_run].
    rewrite (cb_printContents_contents b HR). auto.
  - destruct (call_queue policy o b pData HR)
      as (r & b1 & p1 & Hcall & HR1 & Hcap & Hq).
    destruct (IH b1 p1 HR1) as (rs & b' & p' & xs' & _ & Hrun & Hlist' & Hqs).
    exists (r :: rs), b', p', xs'. cbn [run queue_run].
    rewrite Hcall. cbn. rewrite Hrun. cbn.
    split; [reflexivity |]. split; [reflexivity |]. split; [assumption |].
    rewrite Hq, <- Hcap, Hqs. reflexivity.
Qed.

Lemma buffer_is_bounded_queue_witness :
  Ready (fresh 2) /\
  exists rs b' pData',
    run POLICY_OVERWRITE_OLDEST
      [OpPush 1; OpPush 2; OpPush 3; OpPeek; OpPop; OpGetCount]
      (Some (fresh 2)) (Some 0)
    = Done (rs, Some b', pData')
    /\ rs = [RetCode 0; RetCode 0; RetCode 0; RetCode 0; RetCode 0; RetU32 1]
    /\ pData' = Some 2.
Proof.
  assert (HR : Ready (fresh 2)) by ready_by_computation.
  split; [exact HR |].
  destruct (buffer_is_bounded_queue POLICY_OVERWRITE_OLDEST
              [OpPush 1; OpPush 2; OpPush 3; OpPeek; OpPop; OpGetCount]
              (fresh 2) (Some 0) HR)
    as (xs & rs & b' & p' & xs' & Hlist & Hrun & _ & Hq).
  exists rs, b', p'. split; [exact Hrun |].
  vm_compute in Hlist. injection Hlist as <-.
  vm_compute in Hq. injection Hq as <- _ <-. split; reflexivity.
Defined.

(** ** Life cycle *)

Lemma call_not_ready policy o b pData :
  isInitialized b = false ->
  call policy o (Some b) pData = Done (not_ready_answer o, Some b, pData).
Proof.
  intros Hi.
  destruct o; cbn [call not_ready_answer];
    unfold cb_push, cb_pop, cb_peek, cb_clear, cb_isEmpty, cb_isFull,
      cb_getCount, cb_getFreeSpace;
    rewrite Hi; try reflexivity.
  destruct pData; reflexivity.
Qed.

(** X10.  A [cb_init] that fails on a buffer that was not initialized,
    for a bad size or for want of memory, leaves it not initialized:
    every later call of the interface is turned away without touching
    the buffer or the storage. *)
Theorem failed_init_stays_closed policy b0 size alloc_ok :
  isInitialized b0 = false ->
  exists r b ev,
    cb_init (Some b0) size alloc_ok = (r, Some b, ev)
    /\ (r <> CB_SUCCESS ->
        isInitialized b = false
        /\ forall o pData,
             call policy o (Some b) pData
             = Done (not_ready_answer o, Some b, pData)).
Proof.
  intros Hi. unfold cb_init.
  destruct (Z.eqb size 0 || negb (isPowerOfTwo size)).
  - eexists _, _, _. split; [reflexivity |]. intros _.
    split; [assumption |]. intros o pData. now apply call_not_ready.
  - destruct alloc_ok.
    + eexists _, _, _. split; [reflexivity |]. intros Hne. now elim Hne.
    + eexists _, _, _. split; [reflexivity |]. intros _.
      split; [fields; assumption |].
      intros o pData. apply call_not_ready. fields. assumption.
Qed.

Lemma failed_init_stays_closed_witness :
  isInitialized blank = false /\
  exists r b ev,
    cb_init (Some blank) 6 true = (r, Some b, ev)
    /\ r = CB_ERROR_INVALID_SIZE
    /\ call POLICY_OVERWRITE_OLDEST (OpPush 1) (Some b) None
       = Done (RetCode CB_ERROR_NULL_POINTER, Some b, None).
Proof.
  split; [reflexivity |].
  destruct (failed_init_stays_closed POLICY_OVERWRITE_OLDEST blank 6 true
              eq_refl) as (r & b & ev & Hinit & Hsafe).
  exists r, b, ev. split; [exact Hinit |].
  assert (Hr : r = CB_ERROR_INVALID_SIZE)
    by (vm_compute in Hinit; injection Hinit as <- _ _; reflexivity).
  split; [exact Hr |].
  apply (proj2 (Hsafe ltac:(rewrite Hr; discriminate)) (OpPush 1) None).
Defined.

(** X11.  [cb_init] does not reset [isInitialized] when it fails.
    Called with a valid size on a buffer that is already initialized,
    with no memory to be had, it returns [CB_ERROR_NULL_POINTER] and
    leaves the buffer marked initialized with capacity [size], count 0
    and a [NULL] storage pointer; the next push then stores through that
    pointer. *)
Theorem failed_reinit_drops_storage policy b0 size v :
  isInitialized b0 = true -> is_u32 size -> isPowerOfTwo size = true ->
  exists b,
    cb_init (Some b0) size false
    = (CB_ERROR_NULL_POINTER, Some b,
       [EvMalloc (sizeof_SensorData_t * size)])
    /\ isInitialized b = true
    /\ pBuffer b = None
    /\ capacity b = size
    /\ cb_getCount (Some b) = 0
    /\ cb_push policy (Some b) v = Undef.
Proof.
  intros Hi Hu Hp. pose proof (power_pos size Hu Hp) as Hpos.
  unfold cb_init. rewrite Hp.
  destruct (Z.eqb_spec size 0) as [Hz|_]; [lia |]. cbn [orb negb].
  eexists. split; [reflexivity |]. fields.
  split; [assumption |]. split; [reflexivity |]. split; [reflexivity |].
  split.
  - unfold cb_getCount. fields. rewrite Hi. reflexivity.
  - unfold cb_push, cb_isFull. fields. rewrite Hi. cbn [negb].
    destruct (Z.eqb_spec 0 size) as [Hz|_]; [lia |]. reflexivity.
Qed.

Lemma failed_reinit_drops_storage_witness :
  isInitialized (fresh 4) = true /\ is_u32 8 /\ isPowerOfTwo 8 = true /\
  exists b,
    cb_init (Some (fresh 4)) 8 false
    = (CB_ERROR_NULL_POINTER, Some b, [EvMalloc (sizeof_SensorData_t * 8)])
    /\ cb_push POLICY_OVERWRITE_OLDEST (Some b) 1 = Undef.
Proof.
  assert (Hu : is_u32 8) by (vm_compute; split; [discriminate | reflexivity]).
  split; [reflexivity |]. split; [exact Hu |]. split; [reflexivity |].
  destruct (failed_reinit_drops_storage POLICY_OVERWRITE_OLDEST (fresh 4) 8 1
              eq_refl Hu eq_refl) as (b & Hinit & _ & _ & _ & _ & Hpush).
  exists b. split; [exact Hinit | exact Hpush].
Defined.

(** X12.  After [cb_deinit] no call of the interface reaches the
    released storage: whatever the buffer was, every call on the closed
    buffer returns at once with the not-initialized answer and leaves the
    buffer and the output location as they are. *)
Theorem no_use_after_deinit policy b o pData :
  exists b1 ev,
    cb_deinit (Some b) = (CB_SUCCESS, Some b1, ev)
    /\ pBuffer b1 = None
    /\ call policy o (Some b1) pData
       = Done (not_ready_answer o, Some b1, pData).
Proof.
  unfold cb_deinit.
  destruct (pBuffer b) eqn:Hp; eexists _, _;
    (split; [reflexivity |]); fields;
    (split; [try reflexivity; assumption |]);
    apply call_not_ready; reflexivity.
Qed.

(** ** The teaching file *)

(** X13.  [cb_init] of the teaching file tells the causes of failure
    apart: [CB_ERROR_NULL] for a [NULL] buffer, [CB_ERROR_INVALID_SIZE]
    exactly for a size that [isPowerOfTwo] rejects, [CB_ERROR_ALLOC]
    exactly for a valid size with no memory to be had, and success
    otherwise.  It leaves the buffer as [cb_init] of the main file does,
    and returns the same code except for the allocation failure, which
    the main file reports as [CB_ERROR_NULL_POINTER]. *)
Theorem mini_init_tells_causes b0 size alloc_ok :
  Mini.cb_init None size alloc_ok = (Mini.CB_ERROR_NULL, None, []) /\
  exists r b ev r0 ev0,
    Mini.cb_init (Some b0) size alloc_ok = (r, Some b, ev)
    /\ cb_init (Some b0) size alloc_ok = (r0, Some b, ev0)
    /\ (r = Mini.CB_SUCCESS
        <-> Mini.isPowerOfTwo size = true /\ alloc_ok = true)
    /\ (r = Mini.CB_ERROR_INVALID_SIZE <-> Mini.isPowerOfTwo size = false)
    /\ (r = Mini.CB_ERROR_ALLOC
        <-> Mini.isPowerOfTwo size = true /\ alloc_ok = false)
    /\ r <> Mini.CB_ERROR_NULL
    /\ (r = Mini.CB_ERROR_ALLOC -> r0 = CB_ERROR_NULL_POINTER)
    /\ (r <> Mini.CB_ERROR_ALLOC -> r0 = r)
    /\ length ev = length ev0.
Proof.
  split; [reflexivity |].
  unfold Mini.cb_init, cb_init.
  change (Mini.isPowerOfTwo size) with (isPowerOfTwo size).
  destruct (isPowerOfTwo size) eqn:Hp.
  - destruct (Z.eqb_spec size 0) as [Hz|_].
    { rewrite Hz in Hp. discriminate Hp. }
    cbn [orb negb].
    destruct alloc_ok; eexists _, _, _, _, _;
      (split; [reflexivity |]); (split; [reflexivity |]);
      repeat split; try discriminate; try tauto; try reflexivity;
      intros [? ?]; discriminate.
  - rewrite orb_true_r.
    eexists _, _, _, _, _;
      (split; [reflexivity |]); (split; [reflexivity |]);
      repeat split; try discriminate; try tauto; try reflexivity;
      intros [? ?]; discriminate.
Qed.

(** X14.  On every input, [NULL] arguments and buffers that are not
    initialized included, the teaching file's [cb_pop], [cb_peek],
    [cb_clear], [cb_getCount], [cb_isEmpty], [cb_printContents] and
    guarded push and pop give the results of their namesakes in the main
    file, and its [cb_deinit] gives the same code and buffer with as
    many calls of [free]. *)
Theorem mini_agrees_with_main plat policy irq cb pData v :
  Mini.cb_pop cb pData = cb_pop cb pData /\
  Mini.cb_peek cb pData = cb_peek cb pData /\
  Mini.cb_clear cb = cb_clear cb /\
  Mini.cb_getCount cb = cb_getCount cb /\
  Mini.cb_isEmpty cb = cb_isEmpty cb /\
  Mini.cb_printContents cb = cb_printContents cb /\
  Mini.cb_push_safe plat policy irq cb v = cb_push_safe plat policy irq cb v /\
  Mini.cb_pop_safe plat irq cb pData = cb_pop_safe plat irq cb pData /\
  fst (Mini.cb_deinit cb) = fst (cb_deinit cb) /\
  length (snd (Mini.cb_deinit cb)) = length (snd (cb_deinit cb)).
Proof.
  assert (Hpop : forall p, Mini.cb_pop cb p = cb_pop cb p).
  { intros p. unfold Mini.cb_pop, cb_pop.
    destruct cb as [b|]; [| reflexivity].
    destruct p; destruct (isInitialized b); reflexivity. }
  split; [apply Hpop |].
  split; [reflexivity |]. split; [reflexivity |]. split; [reflexivity |].
  split; [reflexivity |]. split; [reflexivity |]. split; [reflexivity |].
  split; [unfold Mini.cb_pop_safe, cb_pop_safe; rewrite Hpop; reflexivity |].
  unfold Mini.cb_deinit, cb_deinit. destruct cb as [b|]; [| split; reflexivity].
  destruct (pBuffer b); split; reflexivity.
Qed.

Lemma mod_below cap x : - cap <= x < 0 -> x mod cap = x + cap.
Proof.
  intros Hx. replace x with (x + cap + (-1) * cap) at 1 by lia.
  rewrite Z_mod_plus_full. apply Z.mod_small. lia.
Qed.

Lemma mod_dist_step cap i idx :
  0 <= i < cap -> 0 <= idx < cap -> idx <> i ->
  (i - (idx + 1) mod cap) mod cap = (i - idx) mod cap - 1.
Proof.
  intros Hi Hidx Hne. rewrite Zminus_mod_idemp_r.
  destruct (Z_lt_le_dec idx i) as [Hlt|Hge].
  - rewrite !Z.mod_small by lia. lia.
  - rewrite !mod_below by lia. lia.
Qed.

Lemma has_data_window b i n :
  Ready b -> 0 <= i < capacity b ->
  forall idx, 0 <= idx < capacity b ->
    Mini.has_data b i idx n
    = Z.ltb ((i - idx) mod capacity b) (Z.of_nat n).
Proof.
  intros HR Hi. pose proof (ready_cap_pos b HR) as Hpos.
  induction n as [|n IH]; intros idx Hidx.
  - cbn [Mini.has_data]. symmetry. apply Z.ltb_ge.
    apply Z.mod_pos_bound. lia.
  - cbn [Mini.has_data].
    destruct (Z.eqb_spec idx i) as [->|Hne].
    + rewrite Z.sub_diag, Z.mod_0_l by lia. symmetry. apply Z.ltb_lt. lia.
    + change (Mini.wrapIndex (u32 (idx + 1)) (indexMask b))
        with (wrapIndex b (u32 (idx + 1))).
      rewrite (ready_next b HR idx Hidx), IH
        by (apply Z.mod_pos_bound; lia).
      rewrite mod_dist_step by assumption.
      destruct (Z.ltb_spec ((i - idx) mod capacity b - 1) (Z.of_nat n));
        symmetry; [apply Z.ltb_lt | apply Z.ltb_ge]; lia.
Qed.

Lemma visual_cells_map b l n :
  Ready b -> pBuffer b = Some l ->
  forall s : nat,
    Z.of_nat (s + n) <= capacity b ->
    Mini.visual_cells b (Z.of_nat s) n
    = Done (map (fun i : nat =>
                   if Z.ltb ((Z.of_nat i - readIndex b) mod capacity b)
                            (count b)
                   then l !! i else None)
                (seq s n)).
Proof.
  intros HR Hl. destruct (ready_slots b HR) as (l' & Hl' & Hlen).
  rewrite Hl in Hl'. injection Hl' as <-.
  pose proof (ready_count b HR) as Hcnt.
  pose proof (ready_cap b HR) as Hu. unfold is_u32 in Hu.
  induction n as [|n IH]; intros s Hs; [reflexivity |].
  cbn [Mini.visual_cells seq map].
  rewrite (has_data_window b (Z.of_nat s) (Z.to_nat (count b)) HR)
    by (try apply (ready_read b HR); lia).
  rewrite Z2Nat.id by lia.
  rewrite (u32_small (Z.of_nat s + 1)) by (unfold is_u32; lia).
  replace (Z.of_nat s + 1) with (Z.of_nat (S s)) by lia.
  rewrite IH by lia.
  destruct (Z.ltb ((Z.of_nat s - readIndex b) mod capacity b) (count b)).
  - rewrite Hl. unfold load.
    destruct (Z.ltb_spec (Z.of_nat s) 0); [lia |].
    rewrite Nat2Z.id.
    destruct (lookup_lt_is_Some_2 l s) as [x Hx]; [lia |].
    rewrite Hx. reflexivity.
  - reflexivity.
Qed.

Lemma visual_marks_length b n i : length (Mini.visual_marks b i n) = n.
Proof.
  revert i. induction n as [|n IH]; intros i; cbn; [reflexivity |].
  now rewrite IH.
Qed.

(** X15.  On a Ready buffer [cb_visualize] of the teaching file reads
    no slot out of bounds and prints one cell and one marker per slot.
    The cell of slot [i] shows the stored value exactly when [i] lies
    less than [count] slots ahead of [readIndex], going round the end of
    the storage; every other cell is blank. *)
Theorem visualize_shows_live_slots b :
  Ready b ->
  exists l cells marks,
    pBuffer b = Some l
    /\ Mini.cb_visualize (Some b) = Done (cells, marks)
    /\ length cells = Z.to_nat (capacity b)
    /\ length marks = Z.to_nat (capacity b)
    /\ forall i : nat,
         (i < Z.to_nat (capacity b))%nat ->
         cells !! i
         = Some (if Z.ltb ((Z.of_nat i - readIndex b) mod capacity b)
                          (count b)
                 then l !! i else None).
Proof.
  intros HR. destruct (ready_slots b HR) as (l & Hl & Hlen).
  pose proof (visual_cells_map b l (Z.to_nat (capacity b)) HR Hl 0%nat
                ltac:(pose proof (ready_cap_pos b HR); lia)) as Hcells.
  change (Z.of_nat 0) with 0 in Hcells.
  eexists l, _, _. split; [assumption |].
  split.
  { unfold Mini.cb_visualize. rewrite (ready_init b HR). cbn [negb].
    rewrite Hcells. reflexivity. }
  split; [rewrite length_map, length_seq; reflexivity |].
  split; [apply visual_marks_length |].
  intros i Hi. rewrite list_lookup_fmap, lookup_seq_lt by assumption.
  reflexivity.
Qed.

Lemma visualize_shows_live_slots_witness :
  Ready (filled POLICY_OVERWRITE_OLDEST 4 [7; 8]) /\
  exists cells marks,
    Mini.cb_visualize (Some (filled POLICY_OVERWRITE_OLDEST 4 [7; 8]))
    = Done (cells, marks)
    /\ cells !! 1%nat = Some (Some 8)
    /\ cells !! 2%nat = Some None.
Proof.
  assert (HR : Ready (filled POLICY_OVERWRITE_OLDEST 4 [7; 8]))
    by ready_by_computation.
  split; [exact HR |].
  destruct (visualize_shows_live_slots _ HR)
    as (l & cells & marks & Hl & Hvis & _ & _ & Hcell).
  exists cells, marks. split; [exact Hvis |].
  vm_compute in Hl. injection Hl as <-.
  split.
  - exact (Hcell 1%nat ltac:(vm_compute; lia)).
  - exact (Hcell 2%nat ltac:(vm_compute; lia)).
Defined.
